(** * Σc0,++ → Λc+(→pK-π+) π-,+ candidate creator and MC matcher

    Shallow embedding of
    [PWGHF/TableProducer/candidateCreatorSigmac0plusplus.cxx]:
    the task [HfCandidateCreatorSigmac0plusplus] (functions [init] and
    [process]) and the task [HfCandidateSigmac0plusplusMc] (function
    [processMc]).

    Conventions of the embedding.
    - Machine integers are [Z]; every conversion to a narrower type that
      the source performs ([int], [int8_t]) is written out with
      [to_int] / [to_int8].
    - [float] and [double] values are kept abstract (class [DoubleOps]):
      the source only subtracts them, takes absolute values and compares
      them, so nothing here depends on a rounding model.
    - A table row iterator is the row itself; dereferencing an index column
      ([prong0_as<...>()], [prongLc_as<...>()]) is a lookup function of the
      bound table.  An iterator into [aod::McParticles] is its position.
    - Output tables ([Produces<...>]), the log and the calls made to the
      [RecoDecay] routines are fields of an explicit state that the loop
      bodies thread. *)

From Stdlib Require Import ZArith List Bool Lia QArith Qabs Sorted.
Import ListNotations.
Open Scope Z_scope.

(** ** Machine integers *)

(** Conversion of a mathematical integer to a signed [w]-bit integer. *)
Definition wrap_signed (w z : Z) : Z :=
  (z + 2 ^ (w - 1)) mod 2 ^ w - 2 ^ (w - 1).

Definition to_int (z : Z) : Z := wrap_signed 32 z.
Definition to_int8 (z : Z) : Z := wrap_signed 8 z.

(** [TESTBIT(n, i)] of ROOT: [((n) & (1 << (i))) != 0]. *)
Definition TESTBIT (n i : Z) : bool :=
  negb (Z.land n (Z.shiftl 1 i) =? 0).

(** ** Floating-point values *)

(** The operations the source applies to [float]/[double] values.  A
    comparison [a >= b] is written [dle b a] and [a > b] is [dlt b a]. *)
Class DoubleOps (D : Type) : Type := {
  dzero : D;
  dopp : D -> D;
  dsub : D -> D -> D;
  dabs : D -> D;
  dle : D -> D -> bool;
  dlt : D -> D -> bool
}.

(** Rational numbers give an executable instance for concrete events. *)
Definition Qlt_bool (x y : Q) : bool := negb (Qle_bool y x).

#[export] Instance DoubleOps_Q : DoubleOps Q := {
  dzero := 0%Q;
  dopp := Qopp;
  dsub := Qminus;
  dabs := Qabs;
  dle := Qle_bool;
  dlt := Qlt_bool
}.

(** ** Data model of the candidate creator *)

Module Track.
(** A row of [soa::Join<aod::FullTracks, aod::TracksDCA>]. *)
Record t {D : Type} : Type := mk {
  globalIndex : Z;
  sign : Z;
  px : D;
  py : D;
  pz : D;
  eta : D;
  dcaXY : D;
  dcaZ : D;
  itsClusterMap : Z;
  hasITSRefit : bool
}.
Arguments t : clear implicits.
Arguments mk {D}.
End Track.

Module CandLc.
(** A row of [soa::Join<aod::HfCand3Prong, aod::HfSelLc>]. *)
Record t {D : Type} : Type := mk {
  globalIndex : Z;
  collisionId : Z;
  hfflag : Z;
  px : D;
  py : D;
  pz : D;
  prong0Id : Z;
  prong1Id : Z;
  prong2Id : Z;
  isSelLcToPKPi : Z;
  isSelLcToPiKP : Z
}.
Arguments t : clear implicits.
Arguments mk {D}.
End CandLc.

Module CandSc.
(** A row of [aod::HfCandScBase], with one field per argument of the
    cursor call [rowScCandidates(...)]. *)
Record t {D : Type} : Type := mk {
  collisionId : Z;
  pxProng0 : D;
  pyProng0 : D;
  pzProng0 : D;
  pxProng1 : D;
  pyProng1 : D;
  pzProng1 : D;
  prong0Id : Z;
  prong1Id : Z;
  hfflag : Z;
  charge : Z;
  statusSpreadLcMinvPKPiFromPDG : Z;
  statusSpreadLcMinvPiKPFromPDG : Z
}.
Arguments t : clear implicits.
Arguments mk {D}.
End CandSc.

Module Config.
(** The [Configurable]s of [HfCandidateCreatorSigmac0plusplus]. *)
Record t {D : Type} : Type := mk {
  selectionFlagLc : Z;
  yCandLcMax : D;
  mPKPiCandLcMax : D;
  mPiKPCandLcMax : D;
  softPiEtaMax : D;
  softPiItsHitMap : Z;
  softPiItsHitsMin : Z;
  softPiDcaXYMax : D;
  softPiDcaZMax : D
}.
Arguments t : clear implicits.
Arguments mk {D}.
End Config.

(** ** Track selection object *)

Module TrackSelection.
(** The cuts that [init] stores in [softPiCuts]. *)
Record t {D : Type} : Type := mk {
  mMinEta : D;
  mMaxEta : D;
  mMaxDcaXY : D;
  mMaxDcaZ : D;
  mRequireITSRefit : bool;
  mRequiredITSHits : list (Z * list Z)
}.
Arguments t : clear implicits.
Arguments mk {D}.

(** Number of layers of [layers] that are hit in [clusterMap]. *)
Definition nHitsIn (clusterMap : Z) (layers : list Z) : Z :=
  Z.of_nat (length (filter (fun l => TESTBIT clusterMap l) layers)).

(** Modelled from the spec: [TrackSelection::IsSelected] is declared in
    [Common/Core/TrackSelection.h], which is not among the sources.
    Section 4.1: pseudorapidity inside the configured range, both
    impact-parameter magnitudes at most their maxima, the refit flag, and
    at least the required number of hits among the configured layers
    (a layer outside the subset does not count). *)
Definition IsSelected {D : Type} `{DoubleOps D}
    (cuts : t D) (track : Track.t D) : bool :=
  dle (mMinEta cuts) (Track.eta track)
  && dle (Track.eta track) (mMaxEta cuts)
  && dle (dabs (Track.dcaXY track)) (mMaxDcaXY cuts)
  && dle (dabs (Track.dcaZ track)) (mMaxDcaZ cuts)
  && (negb (mRequireITSRefit cuts) || Track.hasITSRefit track)
  && forallb
       (fun req => fst req <=? nHitsIn (Track.itsClusterMap track) (snd req))
       (mRequiredITSHits cuts).
End TrackSelection.

(** [init]: the ITS layers kept are those among 0..6 whose bit is set in
    [softPiItsHitMap]; [std::set] keeps them in increasing order. *)
Definition setSoftPiItsHitMap (softPiItsHitMap : Z) : list Z :=
  filter (fun idItsLayer => TESTBIT softPiItsHitMap idItsLayer)
         [0; 1; 2; 3; 4; 5; 6].

Definition init {D : Type} `{DoubleOps D} (cfg : Config.t D)
    : TrackSelection.t D :=
  TrackSelection.mk
    (dopp (Config.softPiEtaMax cfg)) (Config.softPiEtaMax cfg)
    (Config.softPiDcaXYMax cfg)
    (Config.softPiDcaZMax cfg)
    true
    [(Config.softPiItsHitsMin cfg,
      setSoftPiItsHitMap (Config.softPiItsHitMap cfg))].

(** ** Candidate creator *)

(** Modelled from the spec: the macro [LOG(fatal)] comes from the logging
    framework, which is not among the sources.  Sections 7 and 9: the
    anomaly is logged with the contributing charges and processing
    continues.  A log record keeps the two values streamed into the
    message. *)
Inductive LogRecord : Type :=
| LogFatalCharge (chargeLc chargeSoftPi : Z).

Module Creator.
(** What the task reads besides its arguments: constants and helpers of
    the data model, the bound track table and the cut object. *)
Record Env {D : Type} : Type := mkEnv {
  (** [DecayType::LcToPKPi] of namespace [hf_cand_3prong] *)
  LcToPKPi : Z;
  (** [RecoDecay::getMassPDG(pdg::Code::kLambdaCPlus)] *)
  massLambdaCPlus : D;
  yLc : CandLc.t D -> D;
  invMassLcToPKPi : CandLc.t D -> D;
  invMassLcToPiKP : CandLc.t D -> D;
  (** dereference of a prong index ([prong0_as<...>()]) *)
  prong_as : Z -> Track.t D;
  (** [softPiCuts.IsSelected] *)
  IsSelected : Track.t D -> bool;
  cfg : Config.t D
}.
Arguments Env : clear implicits.
Arguments mkEnv {D}.

(** What [process] writes: the output table and the log. *)
Record State {D : Type} : Type := mkState {
  rowScCandidates : list (CandSc.t D);
  logged : list LogRecord
}.
Arguments State : clear implicits.
Arguments mkState {D}.

Definition empty {D : Type} : State D := mkState [] [].
End Creator.

(** [Filter filterSelectCandidateLc]. *)
Definition filterSelectCandidateLc {D : Type} (env : Creator.Env D)
    (candLc : CandLc.t D) : bool :=
  (Config.selectionFlagLc (Creator.cfg env) <=? CandLc.isSelLcToPKPi candLc)
  || (Config.selectionFlagLc (Creator.cfg env) <=? CandLc.isSelLcToPiKP candLc).

Definition indexProng0 {D : Type} (env : Creator.Env D) (candLc : CandLc.t D) : Z :=
  to_int (Track.globalIndex (Creator.prong_as env (CandLc.prong0Id candLc))).

Definition indexProng1 {D : Type} (env : Creator.Env D) (candLc : CandLc.t D) : Z :=
  to_int (Track.globalIndex (Creator.prong_as env (CandLc.prong1Id candLc))).

Definition indexProng2 {D : Type} (env : Creator.Env D) (candLc : CandLc.t D) : Z :=
  to_int (Track.globalIndex (Creator.prong_as env (CandLc.prong2Id candLc))).

Definition indexSoftPi {D : Type} (trackSoftPi : Track.t D) : Z :=
  to_int (Track.globalIndex trackSoftPi).

Definition chargeLc {D : Type} (env : Creator.Env D) (candLc : CandLc.t D) : Z :=
  to_int (Track.sign (Creator.prong_as env (CandLc.prong0Id candLc))
          + Track.sign (Creator.prong_as env (CandLc.prong1Id candLc))
          + Track.sign (Creator.prong_as env (CandLc.prong2Id candLc))).

Definition chargeSoftPi {D : Type} (trackSoftPi : Track.t D) : Z :=
  to_int (Track.sign trackSoftPi).

Definition chargeSigmac {D : Type} (env : Creator.Env D)
    (candLc : CandLc.t D) (trackSoftPi : Track.t D) : Z :=
  to_int8 (chargeLc env candLc + chargeSoftPi trackSoftPi).

Definition statusSpreadMinvPKPiFromPDG {D : Type} `{DoubleOps D}
    (env : Creator.Env D) (candLc : CandLc.t D) : Z :=
  if (1 <=? CandLc.isSelLcToPKPi candLc)
     && dle (dabs (dsub (Creator.invMassLcToPKPi env candLc)
                        (Creator.massLambdaCPlus env)))
            (Config.mPKPiCandLcMax (Creator.cfg env))
  then 1 else 0.

Definition statusSpreadMinvPiKPFromPDG {D : Type} `{DoubleOps D}
    (env : Creator.Env D) (candLc : CandLc.t D) : Z :=
  if (1 <=? CandLc.isSelLcToPiKP candLc)
     && dle (dabs (dsub (Creator.invMassLcToPiKP env candLc)
                        (Creator.massLambdaCPlus env)))
            (Config.mPiKPCandLcMax (Creator.cfg env))
  then 1 else 0.

(** The row written by the call [rowScCandidates(...)]. *)
Definition rowOf {D : Type} `{DoubleOps D} (env : Creator.Env D)
    (candLc : CandLc.t D) (trackSoftPi : Track.t D) : CandSc.t D :=
  CandSc.mk
    (CandLc.collisionId candLc)
    (CandLc.px candLc) (CandLc.py candLc) (CandLc.pz candLc)
    (Track.px trackSoftPi) (Track.py trackSoftPi) (Track.pz trackSoftPi)
    (CandLc.globalIndex candLc) (Track.globalIndex trackSoftPi)
    (CandLc.hfflag candLc)
    (chargeSigmac env candLc trackSoftPi)
    (statusSpreadMinvPKPiFromPDG env candLc)
    (statusSpreadMinvPiKPFromPDG env candLc).

(** The three tests of the loop over tracks, in source order. *)
Definition isProngOf {D : Type} (env : Creator.Env D)
    (candLc : CandLc.t D) (trackSoftPi : Track.t D) : bool :=
  (indexSoftPi trackSoftPi =? indexProng0 env candLc)
  || (indexSoftPi trackSoftPi =? indexProng1 env candLc)
  || (indexSoftPi trackSoftPi =? indexProng2 env candLc).

Definition badCharge {D : Type} (env : Creator.Env D)
    (candLc : CandLc.t D) (trackSoftPi : Track.t D) : bool :=
  negb (Z.abs (chargeSigmac env candLc trackSoftPi) =? 0)
  && negb (Z.abs (chargeSigmac env candLc trackSoftPi) =? 2).

(** Body of the loop over tracks; a [continue] returns the state as it is
    at that point. *)
Definition trackBody {D : Type} `{DoubleOps D} (env : Creator.Env D)
    (candLc : CandLc.t D)
    (st : Creator.State D) (trackSoftPi : Track.t D) : Creator.State D :=
  if negb (Creator.IsSelected env trackSoftPi) then st
  else if isProngOf env candLc trackSoftPi then st
  else if badCharge env candLc trackSoftPi then
    Creator.mkState
      (Creator.rowScCandidates st)
      (Creator.logged st
         ++ [LogFatalCharge (chargeLc env candLc) (chargeSoftPi trackSoftPi)])
  else
    Creator.mkState
      (Creator.rowScCandidates st ++ [rowOf env candLc trackSoftPi])
      (Creator.logged st).

Definition trackLoop {D : Type} `{DoubleOps D} (env : Creator.Env D)
    (candLc : CandLc.t D) (tracks : list (Track.t D))
    (st : Creator.State D) : Creator.State D :=
  fold_left (trackBody env candLc) tracks st.

(** The three tests of the loop over Λc candidates. *)
Definition hasDecayFlag {D : Type} (env : Creator.Env D)
    (candLc : CandLc.t D) : bool :=
  negb (Z.land (CandLc.hfflag candLc) (Z.shiftl 1 (Creator.LcToPKPi env)) =? 0).

Definition outsideRapidity {D : Type} `{DoubleOps D} (env : Creator.Env D)
    (candLc : CandLc.t D) : bool :=
  dle dzero (Config.yCandLcMax (Creator.cfg env))
  && dlt (Config.yCandLcMax (Creator.cfg env)) (dabs (Creator.yLc env candLc)).

Definition noMassWindow {D : Type} `{DoubleOps D} (env : Creator.Env D)
    (candLc : CandLc.t D) : bool :=
  (statusSpreadMinvPKPiFromPDG env candLc =? 0)
  && (statusSpreadMinvPiKPFromPDG env candLc =? 0).

(** Body of the loop over Λc candidates. *)
Definition candBody {D : Type} `{DoubleOps D} (env : Creator.Env D)
    (tracks : list (Track.t D))
    (st : Creator.State D) (candLc : CandLc.t D) : Creator.State D :=
  if negb (hasDecayFlag env candLc) then st
  else if outsideRapidity env candLc then st
  else if noMassWindow env candLc then st
  else trackLoop env candLc tracks st.

(** [process]: one collision, its tracks and its filtered candidates. *)
Definition process {D : Type} `{DoubleOps D} (env : Creator.Env D)
    (tracks : list (Track.t D)) (candidates : list (CandLc.t D))
    (st : Creator.State D) : Creator.State D :=
  fold_left (candBody env tracks) candidates st.

(** *** Vocabulary of the specification *)

(** A qualifying Λc candidate: decay-type flag set, rapidity accepted, at
    least one mass hypothesis within tolerance. *)
Definition qualifyingLc {D : Type} `{DoubleOps D} (env : Creator.Env D)
    (candLc : CandLc.t D) : bool :=
  hasDecayFlag env candLc
  && negb (outsideRapidity env candLc)
  && negb (noMassWindow env candLc).

(** A qualifying track for a given Λc: passes the quality filter, is not
    a prong of the Λc, and gives a valid charge magnitude. *)
Definition qualifyingTrack {D : Type} (env : Creator.Env D)
    (candLc : CandLc.t D) (trackSoftPi : Track.t D) : bool :=
  Creator.IsSelected env trackSoftPi
  && negb (isProngOf env candLc trackSoftPi)
  && negb (badCharge env candLc trackSoftPi).

(** The pairs for which a row is written, in the order of the loops. *)
Definition acceptedPairs {D : Type} `{DoubleOps D} (env : Creator.Env D)
    (tracks : list (Track.t D)) (candidates : list (CandLc.t D))
    : list (CandLc.t D * Track.t D) :=
  flat_map
    (fun candLc =>
       map (fun trackSoftPi => (candLc, trackSoftPi))
           (filter (qualifyingTrack env candLc) tracks))
    (filter (qualifyingLc env) candidates).

(** The two mass-window checks in the words of the specification:
    the hypothesis is selected and its invariant mass lies within the
    tolerance of the Λc mass. *)
Definition passPKPi {D : Type} `{DoubleOps D} (env : Creator.Env D)
    (candLc : CandLc.t D) : bool :=
  (1 <=? CandLc.isSelLcToPKPi candLc)
  && dle (dabs (dsub (Creator.invMassLcToPKPi env candLc)
                     (Creator.massLambdaCPlus env)))
         (Config.mPKPiCandLcMax (Creator.cfg env)).

Definition passPiKP {D : Type} `{DoubleOps D} (env : Creator.Env D)
    (candLc : CandLc.t D) : bool :=
  (1 <=? CandLc.isSelLcToPiKP candLc)
  && dle (dabs (dsub (Creator.invMassLcToPiKP env candLc)
                     (Creator.massLambdaCPlus env)))
         (Config.mPiKPCandLcMax (Creator.cfg env)).

(** A pair that reaches the charge check and fails it. *)
Definition anomalousPair {D : Type} (env : Creator.Env D)
    (candLc : CandLc.t D) (trackSoftPi : Track.t D) : bool :=
  Creator.IsSelected env trackSoftPi
  && negb (isProngOf env candLc trackSoftPi)
  && badCharge env candLc trackSoftPi.

(** The global identifiers of the three prongs of a Λc candidate. *)
Definition prongIds {D : Type} (env : Creator.Env D) (candLc : CandLc.t D)
    : list Z :=
  [Track.globalIndex (Creator.prong_as env (CandLc.prong0Id candLc));
   Track.globalIndex (Creator.prong_as env (CandLc.prong1Id candLc));
   Track.globalIndex (Creator.prong_as env (CandLc.prong2Id candLc))].

(** The row written for an accepted pair. *)
Definition pairRow {D : Type} `{DoubleOps D} (env : Creator.Env D)
    (p : CandLc.t D * Track.t D) : CandSc.t D :=
  rowOf env (fst p) (snd p).

(** Number of rows that [process] writes for an event. *)
Definition produced {D : Type} `{DoubleOps D} (env : Creator.Env D)
    (tracks : list (Track.t D)) (candidates : list (CandLc.t D)) : nat :=
  length (Creator.rowScCandidates (process env tracks candidates Creator.empty)).

(** ** Data model of the MC matcher *)

(** PDG codes used by the task ([pdg::Code] and ROOT's [PDG_t]). *)
Definition kSigmaC0 : Z := 4112.
Definition kSigmaCPlusPlus : Z := 4222.
Definition kLambdaCPlus : Z := 4122.
Definition kProton : Z := 2212.
Definition kKPlus : Z := 321.
Definition kPiPlus : Z := 211.
Definition kPiMinus : Z := -211.

Module LambdacMc.
(** The columns that [processMc] reads from a row of
    [soa::Join<aod::HfCand3Prong, aod::HfSelLc, aod::HfCand3ProngMcRec>]. *)
Record t : Type := mk {
  prong0Id : Z;
  prong1Id : Z;
  prong2Id : Z;
  flagMcMatchRec : Z
}.
End LambdacMc.

Module McParticle.
(** A row of [aod::McParticles]. *)
Record t : Type := mk {
  pdgCode : Z;
  mothersIds : list Z;
  daughtersIds : list Z
}.
End McParticle.

(** Row at a position of [aod::McParticles]; there is none outside the
    table. *)
Definition rowAt (particlesMc : list McParticle.t) (i : Z)
    : option McParticle.t :=
  if i <? 0 then None else nth_error particlesMc (Z.to_nat i).

(** [pdgCode()] of the particle at a position; positions outside the table
    are not well-formed references and read as code 0. *)
Definition pdgCodeAt (particlesMc : list McParticle.t) (i : Z) : Z :=
  match rowAt particlesMc i with
  | Some p => McParticle.pdgCode p
  | None => 0
  end.

(** The rows of a table paired with their positions, in table order. *)
Fixpoint enumerateFrom {A : Type} (i : Z) (rows : list A) : list (Z * A) :=
  match rows with
  | [] => []
  | r :: rest => (i, r) :: enumerateFrom (i + 1) rest
  end.

Definition enumerate {A : Type} (rows : list A) : list (Z * A) :=
  enumerateFrom 0 rows.

Module RecoDecay.
(** The routines of [RecoDecay] that [processMc] calls.  They are defined
    outside this file of the repository; each takes the arguments of the
    call.  The out-parameter [int8_t* sign] is the second component of the
    result. *)
Record t : Type := mk {
  (** particlesMc, arrDaughters, PDGMother, arrPDGDaughters,
      acceptAntiParticles, depthMax *)
  getMatchedMCRec :
    list McParticle.t -> list Z -> Z -> list Z -> bool -> Z -> Z * Z;
  (** particlesMc, candidate, PDGParticle, arrPDGDaughters,
      acceptAntiParticles, depthMax *)
  isMatchedMCGen :
    list McParticle.t -> Z -> Z -> list Z -> bool -> Z -> bool * Z;
  (** particlesMc, particle *)
  getCharmHadronOrigin : list McParticle.t -> Z -> Z
}.
End RecoDecay.

(** A call made to one of the [RecoDecay] routines, with the arguments
    that identify it. *)
Inductive Call : Type :=
| CallGetMatchedMCRec
    (arrayDaughters : list Z) (PDGMother : Z) (arrPDGDaughters : list Z)
    (depthMax : Z)
| CallIsMatchedMCGen
    (candidate : Z) (PDGParticle : Z) (arrPDGDaughters : list Z)
    (depthMax : Z)
| CallGetCharmHadronOrigin (particle : Z).

Module Mc.
(** What [processMc] reads besides its arguments. *)
Record Env {D : Type} : Type := mkEnv {
  (** [DecayType::LcToPKPi] of namespace [hf_cand_3prong] *)
  LcToPKPi : Z;
  (** [DecayType::Sc0ToPKPiPi] of namespace [hf_cand_sigmac] *)
  Sc0ToPKPiPi : Z;
  (** [DecayType::ScplusplusToPKPiPi] of namespace [hf_cand_sigmac] *)
  ScplusplusToPKPiPi : Z;
  (** dereference of the Λc index of a Σc row ([prongLc_as<LambdacMc>()]) *)
  prongLc_as : CandSc.t D -> LambdacMc.t;
  reco : RecoDecay.t
}.
Arguments Env : clear implicits.
Arguments mkEnv {D}.

(** The local variables of [processMc], its two output tables, and the
    calls made so far. *)
Record State : Type := mkState {
  indexRec : Z;
  sign : Z;
  flag : Z;
  origin : Z;
  chargeSigmac : Z;
  rowMCMatchScRec : list (Z * Z);
  rowMCMatchScGen : list (Z * Z);
  calls : list Call
}.

(** State at the declaration of the local variables. *)
Definition initial : State := mkState (-1) 0 0 0 10 [] [] [].

Definition set_indexRec (v : Z) (st : State) : State :=
  mkState v (sign st) (flag st) (origin st) (chargeSigmac st)
          (rowMCMatchScRec st) (rowMCMatchScGen st) (calls st).

Definition set_sign (v : Z) (st : State) : State :=
  mkState (indexRec st) v (flag st) (origin st) (chargeSigmac st)
          (rowMCMatchScRec st) (rowMCMatchScGen st) (calls st).

Definition set_flag (v : Z) (st : State) : State :=
  mkState (indexRec st) (sign st) v (origin st) (chargeSigmac st)
          (rowMCMatchScRec st) (rowMCMatchScGen st) (calls st).

Definition set_origin (v : Z) (st : State) : State :=
  mkState (indexRec st) (sign st) (flag st) v (chargeSigmac st)
          (rowMCMatchScRec st) (rowMCMatchScGen st) (calls st).

Definition set_chargeSigmac (v : Z) (st : State) : State :=
  mkState (indexRec st) (sign st) (flag st) (origin st) v
          (rowMCMatchScRec st) (rowMCMatchScGen st) (calls st).

Definition called (c : Call) (st : State) : State :=
  mkState (indexRec st) (sign st) (flag st) (origin st) (chargeSigmac st)
          (rowMCMatchScRec st) (rowMCMatchScGen st) (calls st ++ [c]).

(** [rowMCMatchScRec(flag, origin)]. *)
Definition fillRec (st : State) : State :=
  mkState (indexRec st) (sign st) (flag st) (origin st) (chargeSigmac st)
          (rowMCMatchScRec st ++ [(flag st, origin st)])
          (rowMCMatchScGen st) (calls st).

(** [rowMCMatchScGen(flag, origin)]. *)
Definition fillGen (st : State) : State :=
  mkState (indexRec st) (sign st) (flag st) (origin st) (chargeSigmac st)
          (rowMCMatchScRec st)
          (rowMCMatchScGen st ++ [(flag st, origin st)]) (calls st).
End Mc.

(** ** MC matcher *)

(** [indexRec = RecoDecay::getMatchedMCRec(..., &sign, 3)] followed by
    [if (indexRec > -1) flag = sign * (1 << decayType)]. *)
Definition matchRec {D : Type} (env : Mc.Env D)
    (particlesMc : list McParticle.t) (arrayDaughters : list Z)
    (PDGMother : Z) (arrPDGDaughters : list Z) (decayType : Z)
    (st : Mc.State) : Mc.State :=
  let r := RecoDecay.getMatchedMCRec (Mc.reco env) particlesMc arrayDaughters
             PDGMother arrPDGDaughters true 3 in
  let st := Mc.called
              (CallGetMatchedMCRec arrayDaughters PDGMother arrPDGDaughters 3)
              st in
  let st := Mc.set_sign (to_int8 (snd r)) st in
  let st := Mc.set_indexRec (to_int (fst r)) st in
  if -1 <? Mc.indexRec st
  then Mc.set_flag (to_int8 (Mc.sign st * Z.shiftl 1 decayType)) st
  else st.

(** [if (flag != 0) origin = getCharmHadronOrigin(particlesMc,
    particlesMc.rawIteratorAt(indexRec))]; the block is written the same
    in both loops. *)
Definition checkOrigin {D : Type} (env : Mc.Env D)
    (particlesMc : list McParticle.t) (st : Mc.State) : Mc.State :=
  if negb (Mc.flag st =? 0) then
    let particle := Mc.indexRec st in
    Mc.set_origin
      (to_int8 (RecoDecay.getCharmHadronOrigin (Mc.reco env) particlesMc particle))
      (Mc.called (CallGetCharmHadronOrigin particle) st)
  else st.

(** Body of the loop over reconstructed Σc0,++ candidates. *)
Definition recBody {D : Type} (env : Mc.Env D)
    (particlesMc : list McParticle.t)
    (st : Mc.State) (candSigmac : CandSc.t D) : Mc.State :=
  let st := Mc.set_indexRec (-1) st in
  let st := Mc.set_sign 0 st in
  let st := Mc.set_flag 0 st in
  let st := Mc.set_origin 0 st in
  let candLc := Mc.prongLc_as env candSigmac in
  if negb (Z.abs (LambdacMc.flagMcMatchRec candLc)
           =? Z.shiftl 1 (Mc.LcToPKPi env))
  then Mc.fillRec st
  else
    let arrayDaughters :=
      [LambdacMc.prong0Id candLc; LambdacMc.prong1Id candLc;
       LambdacMc.prong2Id candLc; CandSc.prong1Id candSigmac] in
    let st := Mc.set_chargeSigmac (to_int8 (CandSc.charge candSigmac)) st in
    let st :=
      if Mc.chargeSigmac st =? 0 then
        matchRec env particlesMc arrayDaughters kSigmaC0
                 [kProton; - kKPlus; kPiPlus; - kPiPlus]
                 (Mc.Sc0ToPKPiPi env) st
      else if Z.abs (Mc.chargeSigmac st) =? 2 then
        matchRec env particlesMc arrayDaughters kSigmaCPlusPlus
                 [kProton; - kKPlus; kPiPlus; kPiPlus]
                 (Mc.ScplusplusToPKPiPi env) st
      else st in
    let st := checkOrigin env particlesMc st in
    Mc.fillRec st.

Definition recLoop {D : Type} (env : Mc.Env D)
    (particlesMc : list McParticle.t) (candidatesSigmac : list (CandSc.t D))
    (st : Mc.State) : Mc.State :=
  fold_left (recBody env particlesMc) candidatesSigmac st.

(** A call [RecoDecay::isMatchedMCGen(..., &sign, depthMax)]: the state
    after it and its result. *)
Definition callIsMatchedMCGen {D : Type} (env : Mc.Env D)
    (particlesMc : list McParticle.t) (candidate PDGParticle : Z)
    (arrPDGDaughters : list Z) (depthMax : Z)
    (st : Mc.State) : Mc.State * bool :=
  let r := RecoDecay.isMatchedMCGen (Mc.reco env) particlesMc candidate
             PDGParticle arrPDGDaughters true depthMax in
  (Mc.set_sign (to_int8 (snd r))
     (Mc.called
        (CallIsMatchedMCGen candidate PDGParticle arrPDGDaughters depthMax) st),
   fst r).

(** The loop over the daughters of a generated Σc; [break] returns the
    state without visiting the remaining daughters. *)
Fixpoint daughterLoop {D : Type} (env : Mc.Env D)
    (particlesMc : list McParticle.t) (particle : Z) (decayType : Z)
    (daughters : list Z) (st : Mc.State) : Mc.State :=
  match daughters with
  | [] => st
  | daughter :: rest =>
    if negb (Z.abs (pdgCodeAt particlesMc daughter) =? kLambdaCPlus)
    then daughterLoop env particlesMc particle decayType rest st
    else
      let (st1, matched) :=
        callIsMatchedMCGen env particlesMc particle kLambdaCPlus
                           [kProton; - kKPlus; kPiPlus] 2 st in
      if matched
      then Mc.set_flag (to_int8 (Mc.sign st1 * Z.shiftl 1 decayType)) st1
      else daughterLoop env particlesMc particle decayType rest st1
  end.

(** First part of the body of the loop over generated particles: the
    reset of [flag] and [origin] and the two-level matching.  [particle]
    is the row with its position in the table. *)
Definition genMatch {D : Type} (env : Mc.Env D)
    (particlesMc : list McParticle.t)
    (st : Mc.State) (particle : Z * McParticle.t) : Mc.State :=
  let st := Mc.set_flag 0 st in
  let st := Mc.set_origin 0 st in
  let (st1, isSc0) :=
    callIsMatchedMCGen env particlesMc (fst particle) kSigmaC0
                       [kLambdaCPlus; kPiMinus] 1 st in
  if isSc0 then
    daughterLoop env particlesMc (fst particle) (Mc.Sc0ToPKPiPi env)
                 (McParticle.daughtersIds (snd particle)) st1
  else
    let (st2, isScpp) :=
      callIsMatchedMCGen env particlesMc (fst particle) kSigmaCPlusPlus
                         [kLambdaCPlus; kPiPlus] 1 st1 in
    if isScpp then
      daughterLoop env particlesMc (fst particle) (Mc.ScplusplusToPKPiPi env)
                   (McParticle.daughtersIds (snd particle)) st2
    else st2.

(** Body of the loop over generated particles: matching, origin, and the
    row of the output table. *)
Definition genBody {D : Type} (env : Mc.Env D)
    (particlesMc : list McParticle.t)
    (st : Mc.State) (particle : Z * McParticle.t) : Mc.State :=
  let st := genMatch env particlesMc st particle in
  let st := checkOrigin env particlesMc st in
  Mc.fillGen st.

Definition genLoop {D : Type} (env : Mc.Env D)
    (particlesMc : list McParticle.t) (st : Mc.State) : Mc.State :=
  fold_left (genBody env particlesMc) (enumerate particlesMc) st.

(** [processMc]: the loop over reconstructed candidates, then the loop
    over generated particles, on the same local variables. *)
Definition processMc {D : Type} (env : Mc.Env D)
    (particlesMc : list McParticle.t) (candidatesSigmac : list (CandSc.t D))
    : Mc.State :=
  genLoop env particlesMc (recLoop env particlesMc candidatesSigmac Mc.initial).

(** *** Vocabulary of the specification *)

(** The label [processMc] writes for one reconstructed candidate, as a
    function of that candidate alone. *)
Definition recLabel {D : Type} (env : Mc.Env D)
    (particlesMc : list McParticle.t) (candSigmac : CandSc.t D) : Z * Z :=
  let st := recBody env particlesMc Mc.initial candSigmac in
  (Mc.flag st, Mc.origin st).

(** The label [processMc] writes for one generated particle, given the
    value that [indexRec] holds during the second loop. *)
Definition genLabel {D : Type} (env : Mc.Env D)
    (particlesMc : list McParticle.t) (indexRec : Z)
    (particle : Z * McParticle.t) : Z * Z :=
  let st := genBody env particlesMc (Mc.set_indexRec indexRec Mc.initial)
                    particle in
  (Mc.flag st, Mc.origin st).

(** The flag that the loop over daughters leaves, read off the answers of
    the matcher: the first daughter of Λc species for which the
    second-level call succeeds decides it; [flag0] is the flag before the
    loop. *)
Fixpoint daughterFlag {D : Type} (env : Mc.Env D)
    (particlesMc : list McParticle.t) (particle : Z) (decayType : Z)
    (daughters : list Z) (flag0 : Z) : Z :=
  match daughters with
  | [] => flag0
  | daughter :: rest =>
    if negb (Z.abs (pdgCodeAt particlesMc daughter) =? kLambdaCPlus)
    then daughterFlag env particlesMc particle decayType rest flag0
    else
      let r := RecoDecay.isMatchedMCGen (Mc.reco env) particlesMc particle
                 kLambdaCPlus [kProton; - kKPlus; kPiPlus] true 2 in
      if fst r
      then to_int8 (to_int8 (snd r) * Z.shiftl 1 decayType)
      else daughterFlag env particlesMc particle decayType rest flag0
  end.

(** The flag of a generated particle, read off the answers of the
    matcher. *)
Definition genFlag {D : Type} (env : Mc.Env D)
    (particlesMc : list McParticle.t) (particle : Z * McParticle.t) : Z :=
  if fst (RecoDecay.isMatchedMCGen (Mc.reco env) particlesMc (fst particle)
            kSigmaC0 [kLambdaCPlus; kPiMinus] true 1)
  then daughterFlag env particlesMc (fst particle) (Mc.Sc0ToPKPiPi env)
                    (McParticle.daughtersIds (snd particle)) 0
  else if fst (RecoDecay.isMatchedMCGen (Mc.reco env) particlesMc
                 (fst particle) kSigmaCPlusPlus [kLambdaCPlus; kPiPlus] true 1)
  then daughterFlag env particlesMc (fst particle) (Mc.ScplusplusToPKPiPi env)
                    (McParticle.daughtersIds (snd particle)) 0
  else 0.

(** Calls to the generation-level matcher made for a given candidate. *)
Definition isGenCallOf (particle : Z) (c : Call) : bool :=
  match c with
  | CallIsMatchedMCGen candidate _ _ _ => candidate =? particle
  | _ => false
  end.

(** The environment of [processMc] with other matching routines. *)
Definition withReco {D : Type} (env : Mc.Env D) (reco : RecoDecay.t)
    : Mc.Env D :=
  Mc.mkEnv (Mc.LcToPKPi env) (Mc.Sc0ToPKPiPi env) (Mc.ScplusplusToPKPiPi env)
           (Mc.prongLc_as env) reco.

(** A generation-level matcher respects species when it only accepts a
    candidate whose PDG code is the requested one up to sign. *)
Definition respectsSpecies (reco : RecoDecay.t) : Prop :=
  forall particlesMc candidate PDGParticle arrPDGDaughters acceptAnti depthMax,
    fst (RecoDecay.isMatchedMCGen reco particlesMc candidate PDGParticle
           arrPDGDaughters acceptAnti depthMax) = true ->
    Z.abs (pdgCodeAt particlesMc candidate) = Z.abs PDGParticle.

(** ** A model of the matching routines *)

Module RecoDecayModel.

(** +1 for the expected species, -1 for its antiparticle when accepted,
    0 otherwise. *)
Definition signOfSpecies (pdg expected : Z) (acceptAntiParticles : bool) : Z :=
  if pdg =? expected then 1
  else if acceptAntiParticles && (pdg =? - expected) then -1
  else 0.

Fixpoint removeFirst (x : Z) (l : list Z) : option (list Z) :=
  match l with
  | [] => None
  | y :: rest =>
    if x =? y then Some rest
    else match removeFirst x rest with
         | Some rest' => Some (y :: rest')
         | None => None
         end
  end.

(** The two lists hold the same codes with the same multiplicities. *)
Fixpoint samePattern (codes expected : list Z) : bool :=
  match codes with
  | [] => match expected with [] => true | _ :: _ => false end
  | c :: rest =>
    match removeFirst c expected with
    | Some expected' => samePattern rest expected'
    | None => false
    end
  end.

(** The decay products below a particle when [depth] more generations may
    be followed: a particle is final when the depth is used up, when it
    has no daughters, or when its species is one of the expected ones. *)
Fixpoint finalStates (depth : nat) (particlesMc : list McParticle.t)
    (arrPDGFinal : list Z) (i : Z) : list Z :=
  match depth with
  | O => [i]
  | S depth' =>
    match rowAt particlesMc i with
    | None => [i]
    | Some p =>
      match McParticle.daughtersIds p with
      | [] => [i]
      | ds =>
        if existsb (fun code => Z.abs (McParticle.pdgCode p) =? Z.abs code)
                   arrPDGFinal
        then [i]
        else flat_map (finalStates depth' particlesMc arrPDGFinal) ds
      end
    end
  end.

Definition daughtersOf (particlesMc : list McParticle.t) (i : Z) : list Z :=
  match rowAt particlesMc i with
  | Some p => McParticle.daughtersIds p
  | None => []
  end.

(** Modelled from the spec: [RecoDecay::isMatchedMCGen] is defined in
    [PWGHF/Utils/utilsAnalysis] / [RecoDecay.h], which is not among the
    sources.  Section 4.5: the particle is of the expected species and its
    decay products, followed for at most [depthMax] generations, are the
    expected ones, up to a global charge-conjugation sign that is
    returned. *)
Definition isMatchedMCGen (particlesMc : list McParticle.t)
    (candidate PDGParticle : Z) (arrPDGDaughters : list Z)
    (acceptAntiParticles : bool) (depthMax : Z) : bool * Z :=
  let sgn := signOfSpecies (pdgCodeAt particlesMc candidate) PDGParticle
                           acceptAntiParticles in
  if sgn =? 0 then (false, 0)
  else
    let finals :=
      flat_map (finalStates (Z.to_nat (depthMax - 1)) particlesMc arrPDGDaughters)
               (daughtersOf particlesMc candidate) in
    if samePattern (map (pdgCodeAt particlesMc) finals)
                   (map (fun code => sgn * code) arrPDGDaughters)
    then (true, sgn)
    else (false, 0).

(** The nearest ancestor of the expected species, at most [depth]
    generations up, following first mothers. *)
Fixpoint ancestorOfSpecies (depth : nat) (particlesMc : list McParticle.t)
    (PDGMother : Z) (i : Z) : option Z :=
  match depth with
  | O => None
  | S depth' =>
    match rowAt particlesMc i with
    | None => None
    | Some p =>
      match McParticle.mothersIds p with
      | [] => None
      | m :: _ =>
        if Z.abs (pdgCodeAt particlesMc m) =? Z.abs PDGMother then Some m
        else ancestorOfSpecies depth' particlesMc PDGMother m
      end
    end
  end.

Fixpoint eqCodes (l1 l2 : list Z) : bool :=
  match l1, l2 with
  | [], [] => true
  | x :: r1, y :: r2 => (x =? y) && eqCodes r1 r2
  | _, _ => false
  end.

(** Modelled from the spec: [RecoDecay::getMatchedMCRec] is defined in
    [RecoDecay.h], which is not among the sources.  Section 4.4, step 3:
    the generated particles of the daughter tracks trace, within
    [depthMax] generations, to one common ancestor of the expected
    species, they are its decay products, and their codes are the expected
    signed ones up to a global charge-conjugation sign; the position of
    the ancestor is returned, or -1.  [mcParticleId] is the column of
    [aod::McTrackLabels]. *)
Definition getMatchedMCRec (mcParticleId : Z -> Z)
    (particlesMc : list McParticle.t) (arrDaughters : list Z)
    (PDGMother : Z) (arrPDGDaughters : list Z)
    (acceptAntiParticles : bool) (depthMax : Z) : Z * Z :=
  let particles := map mcParticleId arrDaughters in
  match map (ancestorOfSpecies (Z.to_nat depthMax) particlesMc PDGMother)
            particles with
  | Some mother :: others =>
    let sgn := signOfSpecies (pdgCodeAt particlesMc mother) PDGMother
                             acceptAntiParticles in
    let finals :=
      flat_map (finalStates (Z.to_nat (depthMax - 1)) particlesMc arrPDGDaughters)
               (daughtersOf particlesMc mother) in
    if negb (sgn =? 0)
       && forallb (fun a => match a with
                            | Some m => m =? mother
                            | None => false
                            end) others
       && (Z.of_nat (length finals) =? Z.of_nat (length particles))
       && forallb (fun i => existsb (Z.eqb i) finals) particles
       && eqCodes (map (pdgCodeAt particlesMc) particles)
                  (map (fun code => sgn * code) arrPDGDaughters)
    then (mother, sgn)
    else (-1, 0)
  | _ => (-1, 0)
  end.

(** Modelled from the spec: [RecoDecay::getCharmHadronOrigin] is defined
    in [RecoDecay.h], which is not among the sources.  Glossary: a
    particle is non-prompt when it comes from the decay of a beauty
    particle, prompt otherwise.  The codes are 1 (prompt), 2 (non-prompt)
    and 0 outside the table. *)
Definition isBeauty (pdg : Z) : bool :=
  let a := Z.abs pdg in
  ((500 <=? a) && (a <? 600)) || ((5000 <=? a) && (a <? 6000)).

Definition mothersOf (particlesMc : list McParticle.t) (i : Z) : list Z :=
  match rowAt particlesMc i with
  | Some p => McParticle.mothersIds p
  | None => []
  end.

Fixpoint hasBeautyAncestor (fuel : nat) (particlesMc : list McParticle.t)
    (i : Z) : bool :=
  match fuel with
  | O => false
  | S fuel' =>
    existsb (fun m => isBeauty (pdgCodeAt particlesMc m)
                      || hasBeautyAncestor fuel' particlesMc m)
            (mothersOf particlesMc i)
  end.

Definition getCharmHadronOrigin (particlesMc : list McParticle.t) (i : Z) : Z :=
  match rowAt particlesMc i with
  | None => 0
  | Some _ =>
    if hasBeautyAncestor (length particlesMc) particlesMc i then 2 else 1
  end.

Definition reco (mcParticleId : Z -> Z) : RecoDecay.t :=
  RecoDecay.mk (getMatchedMCRec mcParticleId) isMatchedMCGen
               getCharmHadronOrigin.

End RecoDecayModel.

(** ** Concrete events *)

Module Scenario.

(** Default configuration of the task. *)
Definition cfg : Config.t Q :=
  Config.mk 1 (-1)%Q (3 # 100)%Q (3 # 100)%Q (9 # 10)%Q 127 1
            (65 # 1000)%Q (65 # 1000)%Q.

Definition track (id charge : Z) : Track.t Q :=
  Track.mk id charge 0%Q 0%Q (1 # 10)%Q 0%Q (1 # 100)%Q (1 # 100)%Q 127 true.

(** The track table of the event and its dereference. *)
Definition table : list (Track.t Q) :=
  [track 10 1; track 11 (-1); track 12 1; track 20 (-1); track 21 1;
   track 30 1; track 31 1; track 32 1].

Definition prong_as (i : Z) : Track.t Q :=
  match find (fun t => Track.globalIndex t =? i) table with
  | Some t => t
  | None => track i 0
  end.

(** A Λc candidate: position, prongs, and its two invariant masses kept in
    the momentum-independent helper below. *)
Definition candLc (id p0 p1 p2 selPKPi selPiKP : Z) : CandLc.t Q :=
  CandLc.mk id 0 2 0%Q 0%Q 1%Q p0 p1 p2 selPKPi selPiKP.

(** Candidates 0 and 2 have their pKπ mass inside the window; candidate 1
    has both masses outside. *)
Definition invMassLcToPKPi (c : CandLc.t Q) : Q :=
  if CandLc.globalIndex c =? 1 then (25 # 10)%Q else (229 # 100)%Q.

Definition invMassLcToPiKP (c : CandLc.t Q) : Q := (25 # 10)%Q.

Definition env : Creator.Env Q :=
  Creator.mkEnv 1 (228646 # 100000)%Q (fun _ => 0%Q)
                invMassLcToPKPi invMassLcToPiKP prong_as
                (TrackSelection.IsSelected (init cfg)) cfg.

(** Scenario A: one Λc with prongs 10, 11, 12 (charges +1, -1, +1) and the
    soft-pion tracks 20 (charge -1) and 21 (charge +1). *)
Definition candA : CandLc.t Q := candLc 0 10 11 12 1 0.
Definition tracksA : list (Track.t Q) := [track 20 (-1); track 21 1].

(** Scenario B: track 10, a prong of the Λc, is among the soft pions. *)
Definition tracksB : list (Track.t Q) := [track 10 1; track 21 1].

(** Scenario C: a selected Λc with both masses outside the window. *)
Definition candC : CandLc.t Q := candLc 1 10 11 12 1 1.

(** A Λc with three positive prongs: a positive soft pion gives charge 4. *)
Definition candPPP : CandLc.t Q := candLc 2 30 31 32 1 0.

(** A larger event than scenario A: two Λc, three soft pions each. *)
Definition candA' : CandLc.t Q := candLc 3 10 11 12 1 0.
Definition tracksA3 : list (Track.t Q) :=
  [track 20 (-1); track 21 1; track 22 (-1)].

(** Scenario D: Σc++ → Λc+ (→ p K- π+) π+, and an unrelated π-. *)
Definition treeD : list McParticle.t :=
  [McParticle.mk kSigmaCPlusPlus [] [1; 2];
   McParticle.mk kLambdaCPlus [0] [3; 4; 5];
   McParticle.mk kPiPlus [0] [];
   McParticle.mk kProton [1] [];
   McParticle.mk (- kKPlus) [1] [];
   McParticle.mk kPiPlus [1] [];
   McParticle.mk kPiMinus [] []].

(** [aod::McTrackLabels]: tracks 10, 11, 12 and 21 are the proton, the
    kaon and the two pions of [treeD]. *)
Definition mcParticleId (track : Z) : Z :=
  if track =? 10 then 3
  else if track =? 11 then 4
  else if track =? 12 then 5
  else if track =? 21 then 2
  else -1.

(** The Σc rows that [process] writes for scenario A. *)
Definition candidatesSigmacA : list (CandSc.t Q) :=
  Creator.rowScCandidates (process env tracksA [candA] Creator.empty).

(** The Λc table joined with its reconstruction-level flag. *)
Definition lambdac (flagMcMatchRec : Z) (candSigmac : CandSc.t Q) : LambdacMc.t :=
  LambdacMc.mk 10 11 12 flagMcMatchRec.

Definition envMc (flagMcMatchRec : Z) : Mc.Env Q :=
  Mc.mkEnv 1 0 1 (lambdac flagMcMatchRec) (RecoDecayModel.reco mcParticleId).

(** The Σc++ row of scenario A (Λc and track 21). *)
Definition candScPP : CandSc.t Q := rowOf env candA (track 21 1).

(** A stored row whose charge is 1. *)
Definition candScOdd : CandSc.t Q :=
  CandSc.mk 0 0%Q 0%Q 1%Q 0%Q 0%Q (1 # 10)%Q 0 21 2 1 1 0.

(** A Λc with prongs 30, 31 and 11 (charges +1, +1, -1): unlike [candA]
    it does not contain track 10. *)
Definition candMixed : CandLc.t Q := candLc 5 30 31 11 1 0.

End Scenario.

(** ** Further vocabulary *)

(** [process] as the framework runs it: its candidates are the rows that
    pass [filterSelectCandidateLc] ([soa::Filtered<...>]). *)
Definition processFiltered {D : Type} `{DoubleOps D} (env : Creator.Env D)
    (tracks : list (Track.t D)) (candidates : list (CandLc.t D))
    (st : Creator.State D) : Creator.State D :=
  process env tracks (filter (filterSelectCandidateLc env) candidates) st.

(** The environment of [process] with another rapidity helper. *)
Definition withYLc {D : Type} (env : Creator.Env D)
    (yLc : CandLc.t D -> D) : Creator.Env D :=
  Creator.mkEnv (Creator.LcToPKPi env) (Creator.massLambdaCPlus env) yLc
                (Creator.invMassLcToPKPi env) (Creator.invMassLcToPiKP env)
                (Creator.prong_as env) (Creator.IsSelected env)
                (Creator.cfg env).

(** A pair that reaches the charge check: the track is selected and is
    not found among the prongs. *)
Definition reachesChargeCheck {D : Type} (env : Creator.Env D)
    (candLc : CandLc.t D) (trackSoftPi : Track.t D) : bool :=
  Creator.IsSelected env trackSoftPi
  && negb (isProngOf env candLc trackSoftPi).

(** The daughters handed to [getMatchedMCRec] for a Σc row. *)
Definition arrayDaughtersOf {D : Type} (env : Mc.Env D)
    (candSigmac : CandSc.t D) : list Z :=
  [LambdacMc.prong0Id (Mc.prongLc_as env candSigmac);
   LambdacMc.prong1Id (Mc.prongLc_as env candSigmac);
   LambdacMc.prong2Id (Mc.prongLc_as env candSigmac);
   CandSc.prong1Id candSigmac].

(** * The scenarios of the specification, run on the embedding *)

(** [init] with the default hit map 127 keeps the seven ITS layers. *)
Example init_default_layers :
  TrackSelection.mRequiredITSHits (init Scenario.cfg)
  = [(1, [0; 1; 2; 3; 4; 5; 6])].
Proof. vm_compute. reflexivity. Qed.

Example filter_default_selects_candA :
  filterSelectCandidateLc Scenario.env Scenario.candA = true.
Proof. vm_compute. reflexivity. Qed.

(** Scenario A: two rows, charge 0 with track 20 and charge +2 with
    track 21, both flagged for the pKπ hypothesis only. *)
Example scenarioA_rows :
  map (fun r => (CandSc.prong1Id r, CandSc.charge r,
                 CandSc.statusSpreadLcMinvPKPiFromPDG r,
                 CandSc.statusSpreadLcMinvPiKPFromPDG r))
      (Creator.rowScCandidates
         (process Scenario.env Scenario.tracksA [Scenario.candA]
                  Creator.empty))
  = [(20, 0, 1, 0); (21, 2, 1, 0)].
Proof. vm_compute. reflexivity. Qed.

(** Scenario B: the pairing with track 10 is excluded. *)
Example scenarioB_rows :
  map (fun r => (CandSc.prong1Id r, CandSc.charge r))
      (Creator.rowScCandidates
         (process Scenario.env Scenario.tracksB [Scenario.candA]
                  Creator.empty))
  = [(21, 2)].
Proof. vm_compute. reflexivity. Qed.

(** Scenario C: no row, whatever the number of tracks. *)
Example scenarioC_rows :
  produced Scenario.env Scenario.table [Scenario.candC] = 0%nat.
Proof. vm_compute. reflexivity. Qed.

(** Reconstruction-level labels of scenario A on the tree of scenario D:
    the pairing with track 20 is not a Σc0, the pairing with track 21 is
    the prompt Σc++. *)
Example scenarioD_rec_labels :
  Mc.rowMCMatchScRec
    (processMc (Scenario.envMc 2) Scenario.treeD Scenario.candidatesSigmacA)
  = [(0, 0); (2, 1)].
Proof. vm_compute. reflexivity. Qed.

(** * Properties of the candidate creator *)

Section CreatorFacts.
Context {D : Type} `{DoubleOps D}.
Variable env : Creator.Env D.

(** ** What one iteration writes *)

Lemma trackBody_rows (candLc : CandLc.t D) (st : Creator.State D)
    (trackSoftPi : Track.t D) :
  Creator.rowScCandidates (trackBody env candLc st trackSoftPi) =
  Creator.rowScCandidates st
    ++ (if qualifyingTrack env candLc trackSoftPi
        then [rowOf env candLc trackSoftPi] else []).
Proof.
  unfold trackBody, qualifyingTrack.
  destruct (Creator.IsSelected env trackSoftPi); simpl;
    [| now rewrite app_nil_r].
  destruct (isProngOf env candLc trackSoftPi); simpl;
    [now rewrite app_nil_r |].
  destruct (badCharge env candLc trackSoftPi); simpl;
    [now rewrite app_nil_r | reflexivity].
Qed.

Lemma trackBody_logged (candLc : CandLc.t D) (st : Creator.State D)
    (trackSoftPi : Track.t D) :
  Creator.logged (trackBody env candLc st trackSoftPi) =
  Creator.logged st
    ++ (if anomalousPair env candLc trackSoftPi
        then [LogFatalCharge (chargeLc env candLc) (chargeSoftPi trackSoftPi)]
        else []).
Proof.
  unfold trackBody, anomalousPair.
  destruct (Creator.IsSelected env trackSoftPi); simpl;
    [| now rewrite app_nil_r].
  destruct (isProngOf env candLc trackSoftPi); simpl;
    [now rewrite app_nil_r |].
  destruct (badCharge env candLc trackSoftPi); simpl;
    [reflexivity | now rewrite app_nil_r].
Qed.

Lemma trackLoop_rows (candLc : CandLc.t D) (tracks : list (Track.t D)) :
  forall st,
    Creator.rowScCandidates (trackLoop env candLc tracks st) =
    Creator.rowScCandidates st
      ++ map (rowOf env candLc) (filter (qualifyingTrack env candLc) tracks).
Proof.
  unfold trackLoop.
  induction tracks as [| t rest IH]; intros st; simpl.
  - now rewrite app_nil_r.
  - rewrite IH, trackBody_rows.
    destruct (qualifyingTrack env candLc t); simpl.
    + now rewrite <- app_assoc.
    + now rewrite app_nil_r.
Qed.

Lemma trackLoop_logged (candLc : CandLc.t D) (tracks : list (Track.t D)) :
  forall st,
    Creator.logged (trackLoop env candLc tracks st) =
    Creator.logged st
      ++ map (fun t => LogFatalCharge (chargeLc env candLc) (chargeSoftPi t))
             (filter (anomalousPair env candLc) tracks).
Proof.
  unfold trackLoop.
  induction tracks as [| t rest IH]; intros st; simpl.
  - now rewrite app_nil_r.
  - rewrite IH, trackBody_logged.
    destruct (anomalousPair env candLc t); simpl.
    + now rewrite <- app_assoc.
    + now rewrite app_nil_r.
Qed.

Lemma candBody_skip (tracks : list (Track.t D)) (st : Creator.State D)
    (candLc : CandLc.t D) :
  qualifyingLc env candLc = false -> candBody env tracks st candLc = st.
Proof.
  unfold candBody, qualifyingLc.
  destruct (hasDecayFlag env candLc); simpl; [| reflexivity].
  destruct (outsideRapidity env candLc); simpl; [reflexivity |].
  destruct (noMassWindow env candLc); simpl; [reflexivity | discriminate].
Qed.

Lemma candBody_loop (tracks : list (Track.t D)) (st : Creator.State D)
    (candLc : CandLc.t D) :
  qualifyingLc env candLc = true ->
  candBody env tracks st candLc = trackLoop env candLc tracks st.
Proof.
  unfold candBody, qualifyingLc.
  destruct (hasDecayFlag env candLc); simpl; [| discriminate].
  destruct (outsideRapidity env candLc); simpl; [discriminate |].
  destruct (noMassWindow env candLc); simpl; [discriminate | reflexivity].
Qed.

(** ** What [process] writes *)

Lemma process_rows (tracks : list (Track.t D)) (candidates : list (CandLc.t D)) :
  forall st,
    Creator.rowScCandidates (process env tracks candidates st) =
    Creator.rowScCandidates st
      ++ map (pairRow env) (acceptedPairs env tracks candidates).
Proof.
  unfold process, acceptedPairs.
  induction candidates as [| c rest IH]; intros st; simpl.
  - now rewrite app_nil_r.
  - rewrite IH.
    destruct (qualifyingLc env c) eqn:Hq; simpl.
    + rewrite candBody_loop by exact Hq.
      rewrite trackLoop_rows, map_app, map_map, <- app_assoc.
      reflexivity.
    + rewrite candBody_skip by exact Hq. reflexivity.
Qed.

Lemma process_logged (tracks : list (Track.t D)) (candidates : list (CandLc.t D)) :
  forall st,
    Creator.logged (process env tracks candidates st) =
    Creator.logged st
      ++ flat_map
           (fun c =>
              map (fun t => LogFatalCharge (chargeLc env c) (chargeSoftPi t))
                  (filter (anomalousPair env c) tracks))
           (filter (qualifyingLc env) candidates).
Proof.
  unfold process.
  induction candidates as [| c rest IH]; intros st; simpl.
  - now rewrite app_nil_r.
  - rewrite IH.
    destruct (qualifyingLc env c) eqn:Hq; simpl.
    + rewrite candBody_loop by exact Hq.
      rewrite trackLoop_logged, <- app_assoc. reflexivity.
    + rewrite candBody_skip by exact Hq. reflexivity.
Qed.

Lemma acceptedPairs_In (tracks : list (Track.t D))
    (candidates : list (CandLc.t D)) (c : CandLc.t D) (t : Track.t D) :
  In (c, t) (acceptedPairs env tracks candidates) <->
  In c candidates /\ In t tracks
  /\ qualifyingLc env c = true /\ qualifyingTrack env c t = true.
Proof.
  unfold acceptedPairs. rewrite in_flat_map. split.
  - intros [c' [Hc Hin]].
    apply filter_In in Hc. destruct Hc as [Hc Hq].
    apply in_map_iff in Hin. destruct Hin as [t' [Heq Ht]].
    inversion Heq; subst c' t'.
    apply filter_In in Ht. tauto.
  - intros (Hc & Ht & Hq & Hqt).
    exists c. split.
    + apply filter_In. tauto.
    + apply in_map_iff. exists t. split; [reflexivity |].
      apply filter_In. tauto.
Qed.

Lemma acceptedPairs_length (tracks : list (Track.t D))
    (candidates : list (CandLc.t D)) (N : nat) :
  (forall c, In c candidates -> qualifyingLc env c = true ->
             length (filter (qualifyingTrack env c) tracks) = N) ->
  length (acceptedPairs env tracks candidates) =
  (length (filter (qualifyingLc env) candidates) * N)%nat.
Proof.
  unfold acceptedPairs.
  induction candidates as [| c rest IH]; intros HN; simpl.
  - reflexivity.
  - destruct (qualifyingLc env c) eqn:Hq; simpl.
    + rewrite length_app, length_map, IH.
      * rewrite (HN c); [reflexivity | now left | exact Hq].
      * intros c' Hin. apply HN. now right.
    + apply IH. intros c' Hin. apply HN. now right.
Qed.

End CreatorFacts.

(** ** Charge domain *)

Lemma badCharge_false_domain {D : Type} (env : Creator.Env D)
    (candLc : CandLc.t D) (trackSoftPi : Track.t D) :
  badCharge env candLc trackSoftPi = false ->
  chargeSigmac env candLc trackSoftPi = -2
  \/ chargeSigmac env candLc trackSoftPi = 0
  \/ chargeSigmac env candLc trackSoftPi = 2.
Proof.
  unfold badCharge. intros Hbad.
  apply andb_false_iff in Hbad.
  destruct Hbad as [Hz | Ht];
    [apply negb_false_iff, Z.eqb_eq in Hz | apply negb_false_iff, Z.eqb_eq in Ht];
    lia.
Qed.

Lemma qualifyingTrack_parts {D : Type} (env : Creator.Env D)
    (candLc : CandLc.t D) (trackSoftPi : Track.t D) :
  qualifyingTrack env candLc trackSoftPi = true ->
  Creator.IsSelected env trackSoftPi = true
  /\ isProngOf env candLc trackSoftPi = false
  /\ badCharge env candLc trackSoftPi = false.
Proof.
  unfold qualifyingTrack. intros Hq.
  apply andb_true_iff in Hq. destruct Hq as [Hq Hc].
  apply andb_true_iff in Hq. destruct Hq as [Hs Hp].
  apply negb_true_iff in Hc. apply negb_true_iff in Hp. tauto.
Qed.

(** C1. Every row that [process] adds to the Σc table carries a charge
    (the [int8_t] sum of the three prong signs and the soft-pion sign)
    equal to -2, 0 or +2; no row with another charge is written. *)
Theorem C1_charge_domain {D : Type} `{DoubleOps D} (env : Creator.Env D)
    (tracks : list (Track.t D)) (candidates : list (CandLc.t D))
    (st : Creator.State D) :
  exists emitted,
    Creator.rowScCandidates (process env tracks candidates st) =
    Creator.rowScCandidates st ++ emitted
    /\ Forall (fun row => CandSc.charge row = -2
                          \/ CandSc.charge row = 0
                          \/ CandSc.charge row = 2) emitted.
Proof.
  exists (map (pairRow env) (acceptedPairs env tracks candidates)).
  split; [apply process_rows |].
  apply Forall_forall. intros row Hrow.
  apply in_map_iff in Hrow. destruct Hrow as [[c t] [Hrow Hin]].
  apply acceptedPairs_In in Hin. destruct Hin as (_ & _ & _ & Hqt).
  apply qualifyingTrack_parts in Hqt. destruct Hqt as (_ & _ & Hcharge).
  subst row. unfold pairRow, rowOf. simpl.
  now apply badCharge_false_domain.
Qed.

(** ** Self-pairing *)

Lemma isProngOf_true_of_id {D : Type} (env : Creator.Env D)
    (candLc : CandLc.t D) (trackSoftPi : Track.t D) :
  In (Track.globalIndex trackSoftPi) (prongIds env candLc) ->
  isProngOf env candLc trackSoftPi = true.
Proof.
  unfold prongIds, isProngOf, indexSoftPi, indexProng0, indexProng1, indexProng2.
  intros [H0 | [H1 | [H2 | []]]].
  - rewrite <- H0, Z.eqb_refl. reflexivity.
  - rewrite <- H1, Z.eqb_refl. apply orb_true_iff. left.
    apply orb_true_iff. now right.
  - rewrite <- H2, Z.eqb_refl. apply orb_true_iff. now right.
Qed.

Lemma isProngOf_false_ids {D : Type} (env : Creator.Env D)
    (candLc : CandLc.t D) (trackSoftPi : Track.t D) :
  isProngOf env candLc trackSoftPi = false ->
  ~ In (Track.globalIndex trackSoftPi) (prongIds env candLc).
Proof.
  intros Hfalse Hin.
  apply isProngOf_true_of_id in Hin. congruence.
Qed.

(** C3. Every row that [process] adds comes from a candidate and a track
    of the event whose global identifier differs from the identifiers of
    the three prongs of that candidate; and an iteration over a pair whose
    track identifier equals a prong identifier leaves the table as it
    was. *)
Theorem C3_no_self_pairing {D : Type} `{DoubleOps D} (env : Creator.Env D)
    (tracks : list (Track.t D)) (candidates : list (CandLc.t D))
    (st : Creator.State D) :
  (exists pairs,
      Creator.rowScCandidates (process env tracks candidates st) =
      Creator.rowScCandidates st ++ map (pairRow env) pairs
      /\ Forall (fun p => In (fst p) candidates /\ In (snd p) tracks
                          /\ CandSc.prong0Id (pairRow env p)
                             = CandLc.globalIndex (fst p)
                          /\ CandSc.prong1Id (pairRow env p)
                             = Track.globalIndex (snd p)
                          /\ ~ In (Track.globalIndex (snd p))
                                  (prongIds env (fst p))) pairs)
  /\ (forall candLc trackSoftPi st0,
         In (Track.globalIndex trackSoftPi) (prongIds env candLc) ->
         Creator.rowScCandidates (trackBody env candLc st0 trackSoftPi) =
         Creator.rowScCandidates st0).
Proof.
  split.
  - exists (acceptedPairs env tracks candidates).
    split; [apply process_rows |].
    apply Forall_forall. intros [c t] Hin.
    apply acceptedPairs_In in Hin. destruct Hin as (Hc & Ht & _ & Hqt).
    apply qualifyingTrack_parts in Hqt. destruct Hqt as (_ & Hprong & _).
    simpl. repeat split; try assumption.
    now apply isProngOf_false_ids.
  - intros candLc trackSoftPi st0 Hid.
    rewrite trackBody_rows. unfold qualifyingTrack.
    rewrite (isProngOf_true_of_id env candLc trackSoftPi Hid).
    rewrite andb_false_r. simpl. apply app_nil_r.
Qed.

(** Scenario B: track 10 is a prong of the Λc and gives no row. *)
Lemma C3_no_self_pairing_witness :
  In (Track.globalIndex (Scenario.track 10 1))
     (prongIds Scenario.env Scenario.candA)
  /\ Creator.rowScCandidates
       (trackBody Scenario.env Scenario.candA Creator.empty
                  (Scenario.track 10 1)) = [].
Proof.
  assert (Hid : In (Track.globalIndex (Scenario.track 10 1))
                   (prongIds Scenario.env Scenario.candA))
    by (left; reflexivity).
  split; [exact Hid |].
  exact (proj2 (C3_no_self_pairing Scenario.env [] [] Creator.empty)
               Scenario.candA (Scenario.track 10 1) Creator.empty Hid).
Defined.

(** ** Mass-window gating *)

Lemma noMassWindow_of_pass {D : Type} `{DoubleOps D} (env : Creator.Env D)
    (candLc : CandLc.t D) :
  passPKPi env candLc = false -> passPiKP env candLc = false ->
  noMassWindow env candLc = true.
Proof.
  unfold passPKPi, passPiKP, noMassWindow,
    statusSpreadMinvPKPiFromPDG, statusSpreadMinvPiKPFromPDG.
  intros HA HB. rewrite HA, HB. reflexivity.
Qed.

Lemma qualifyingLc_of_pass {D : Type} `{DoubleOps D} (env : Creator.Env D)
    (candLc : CandLc.t D) :
  passPKPi env candLc = false -> passPiKP env candLc = false ->
  qualifyingLc env candLc = false.
Proof.
  intros HA HB. unfold qualifyingLc.
  rewrite (noMassWindow_of_pass env candLc HA HB). simpl.
  apply andb_false_r.
Qed.

(** C4. A Λc candidate for which neither mass hypothesis passes its
    window check is skipped: its iteration leaves the state unchanged
    whatever the tracks of the event, so the event gives the rows it would
    give without that candidate. *)
Theorem C4_mass_window_gating {D : Type} `{DoubleOps D} (env : Creator.Env D)
    (tracks : list (Track.t D)) (candLc : CandLc.t D) :
  passPKPi env candLc = false ->
  passPiKP env candLc = false ->
  (forall st, candBody env tracks st candLc = st)
  /\ (forall before after st,
         process env tracks (before ++ candLc :: after) st =
         process env tracks (before ++ after) st).
Proof.
  intros HA HB.
  assert (Hskip : forall st, candBody env tracks st candLc = st).
  { intros st. apply candBody_skip. now apply qualifyingLc_of_pass. }
  split; [exact Hskip |].
  intros before after st. unfold process.
  rewrite !fold_left_app. simpl. now rewrite Hskip.
Qed.

(** Scenario C: both masses outside the window, eight tracks, no row. *)
Lemma C4_mass_window_gating_witness :
  passPKPi Scenario.env Scenario.candC = false
  /\ passPiKP Scenario.env Scenario.candC = false
  /\ candBody Scenario.env Scenario.table Creator.empty Scenario.candC =
     Creator.empty.
Proof.
  assert (HA : passPKPi Scenario.env Scenario.candC = false)
    by (vm_compute; reflexivity).
  assert (HB : passPiKP Scenario.env Scenario.candC = false)
    by (vm_compute; reflexivity).
  split; [exact HA | split; [exact HB |]].
  exact (proj1 (C4_mass_window_gating Scenario.env Scenario.table
                  Scenario.candC HA HB) Creator.empty).
Defined.

(** ** Combinatorial completeness *)

Lemma produced_accepted {D : Type} `{DoubleOps D} (env : Creator.Env D)
    (tracks : list (Track.t D)) (candidates : list (CandLc.t D)) :
  produced env tracks candidates =
  length (acceptedPairs env tracks candidates).
Proof.
  unfold produced. rewrite process_rows. simpl. apply length_map.
Qed.

Lemma acceptedPairs_length_sum {D : Type} `{DoubleOps D}
    (env : Creator.Env D)
    (tracks : list (Track.t D)) (candidates : list (CandLc.t D)) :
  length (acceptedPairs env tracks candidates) =
  list_sum (map (fun c => length (filter (qualifyingTrack env c) tracks))
                (filter (qualifyingLc env) candidates)).
Proof.
  unfold acceptedPairs.
  induction (filter (qualifyingLc env) candidates) as [| c rest IH]; simpl.
  - reflexivity.
  - now rewrite length_app, length_map, IH.
Qed.

(** C2 (amended). The number of rows that [process] writes for an event
    is the sum, over its qualifying Λc candidates, of the number of tracks
    that qualify for that candidate.  When every qualifying candidate has
    the same number N of qualifying tracks, this is M × N for the M
    qualifying candidates, and an event with at least as many qualifying
    candidates and at least as many qualifying tracks per candidate gives
    at least as many rows. *)
Theorem C2_count_sum_over_candidates {D : Type} `{DoubleOps D}
    (env : Creator.Env D)
    (tracks : list (Track.t D)) (candidates : list (CandLc.t D)) :
  produced env tracks candidates =
  list_sum (map (fun c => length (filter (qualifyingTrack env c) tracks))
                (filter (qualifyingLc env) candidates))
  /\ (forall N : nat,
         (forall c, In c candidates -> qualifyingLc env c = true ->
                    length (filter (qualifyingTrack env c) tracks) = N) ->
         produced env tracks candidates =
         (length (filter (qualifyingLc env) candidates) * N)%nat
         /\ (forall tracks' candidates' (N' : nat),
                (forall c, In c candidates' -> qualifyingLc env c = true ->
                           length (filter (qualifyingTrack env c) tracks')
                           = N') ->
                (length (filter (qualifyingLc env) candidates)
                 <= length (filter (qualifyingLc env) candidates'))%nat ->
                (N <= N')%nat ->
                (produced env tracks candidates
                 <= produced env tracks' candidates')%nat)).
Proof.
  split.
  - rewrite produced_accepted. apply acceptedPairs_length_sum.
  - intros N HN.
    assert (Hcount : produced env tracks candidates =
                     (length (filter (qualifyingLc env) candidates) * N)%nat).
    { rewrite produced_accepted.
      apply (acceptedPairs_length env tracks candidates N HN). }
    split; [exact Hcount |].
    intros tracks' candidates' N' HN' HleM HleN.
    rewrite Hcount, produced_accepted,
      (acceptedPairs_length env tracks' candidates' N' HN').
    now apply Nat.mul_le_mono.
Qed.

(** The event of the counterexample gives 1 + 2 rows; scenario A, with
    one Λc and two soft pions each, gives 1 × 2 rows, and no more than the
    event with two such Λc and three soft pions each. *)
Lemma C2_count_sum_over_candidates_witness :
  produced Scenario.env Scenario.tracksB
           [Scenario.candA; Scenario.candMixed] = (1 + (2 + 0))%nat
  /\ produced Scenario.env Scenario.tracksA [Scenario.candA] = (1 * 2)%nat
  /\ (produced Scenario.env Scenario.tracksA [Scenario.candA]
      <= produced Scenario.env Scenario.tracksA3
                  [Scenario.candA; Scenario.candA'])%nat.
Proof.
  split.
  - exact (proj1 (C2_count_sum_over_candidates Scenario.env Scenario.tracksB
                    [Scenario.candA; Scenario.candMixed])).
  - assert (HN : forall c, In c [Scenario.candA] ->
                   qualifyingLc Scenario.env c = true ->
                   length (filter (qualifyingTrack Scenario.env c)
                                  Scenario.tracksA) = 2%nat).
    { intros c [Hc | []] _. subst c. vm_compute. reflexivity. }
    assert (HN' : forall c, In c [Scenario.candA; Scenario.candA'] ->
                   qualifyingLc Scenario.env c = true ->
                   length (filter (qualifyingTrack Scenario.env c)
                                  Scenario.tracksA3) = 3%nat).
    { intros c [Hc | [Hc | []]] _; subst c; vm_compute; reflexivity. }
    destruct (proj2 (C2_count_sum_over_candidates Scenario.env
                       Scenario.tracksA [Scenario.candA]) 2%nat HN)
      as [Hcount Hmono].
    split; [exact Hcount |].
    apply (Hmono Scenario.tracksA3 [Scenario.candA; Scenario.candA'] 3%nat
                 HN'); vm_compute; lia.
Defined.

(** The claim as stated fails on the tracks 10 and 21 with the two Λc
    [candA] (prongs 10, 11, 12) and [candMixed] (prongs 30, 31, 11): both
    candidates qualify and both tracks pass the cuts, track 10 qualifies
    for the second candidate only, and the 3 rows written are not 2 × N
    for any N. *)
Lemma C2_count_counterexample :
  length (filter (qualifyingLc Scenario.env)
                 [Scenario.candA; Scenario.candMixed]) = 2%nat
  /\ length (filter (Creator.IsSelected Scenario.env) Scenario.tracksB)
     = 2%nat
  /\ length (filter (qualifyingTrack Scenario.env Scenario.candA)
                    Scenario.tracksB) = 1%nat
  /\ length (filter (qualifyingTrack Scenario.env Scenario.candMixed)
                    Scenario.tracksB) = 2%nat
  /\ produced Scenario.env Scenario.tracksB
              [Scenario.candA; Scenario.candMixed] = 3%nat
  /\ (forall N : nat,
         produced Scenario.env Scenario.tracksB
                  [Scenario.candA; Scenario.candMixed] <> (2 * N)%nat).
Proof.
  assert (Hrows : produced Scenario.env Scenario.tracksB
                           [Scenario.candA; Scenario.candMixed] = 3%nat)
    by (vm_compute; reflexivity).
  repeat (split; [vm_compute; reflexivity |]).
  intros N. rewrite Hrows. lia.
Qed.

(** ** Charge anomaly *)

Lemma badCharge_of_abs {D : Type} (env : Creator.Env D)
    (candLc : CandLc.t D) (trackSoftPi : Track.t D) :
  Z.abs (chargeSigmac env candLc trackSoftPi) <> 0 ->
  Z.abs (chargeSigmac env candLc trackSoftPi) <> 2 ->
  badCharge env candLc trackSoftPi = true.
Proof.
  intros H0 H2. unfold badCharge.
  apply andb_true_iff. split; apply negb_true_iff, Z.eqb_neq; assumption.
Qed.

(** C9. When a pair reaches the charge check with a charge of magnitude
    other than 0 and 2, its iteration appends one log record holding the
    Λc charge and the soft-pion charge and writes no row; the event still
    gets the row of every accepted pair, in loop order, and the log of the
    whole event holds the record. *)
Theorem C9_bad_charge_pair_dropped {D : Type} `{DoubleOps D}
    (env : Creator.Env D)
    (tracks : list (Track.t D)) (candidates : list (CandLc.t D))
    (st : Creator.State D) (candLc : CandLc.t D) (trackSoftPi : Track.t D) :
  In candLc candidates -> In trackSoftPi tracks ->
  qualifyingLc env candLc = true ->
  Creator.IsSelected env trackSoftPi = true ->
  isProngOf env candLc trackSoftPi = false ->
  Z.abs (chargeSigmac env candLc trackSoftPi) <> 0 ->
  Z.abs (chargeSigmac env candLc trackSoftPi) <> 2 ->
  (forall st0,
      trackBody env candLc st0 trackSoftPi =
      Creator.mkState
        (Creator.rowScCandidates st0)
        (Creator.logged st0
           ++ [LogFatalCharge (chargeLc env candLc) (chargeSoftPi trackSoftPi)]))
  /\ In (LogFatalCharge (chargeLc env candLc) (chargeSoftPi trackSoftPi))
        (Creator.logged (process env tracks candidates st))
  /\ Creator.rowScCandidates (process env tracks candidates st) =
     Creator.rowScCandidates st
       ++ map (pairRow env) (acceptedPairs env tracks candidates)
  /\ ~ In (candLc, trackSoftPi) (acceptedPairs env tracks candidates)
  /\ (forall c t,
         In c candidates -> In t tracks ->
         qualifyingLc env c = true -> qualifyingTrack env c t = true ->
         In (c, t) (acceptedPairs env tracks candidates)).
Proof.
  intros Hc Ht Hq Hsel Hprong H0 H2.
  pose proof (badCharge_of_abs env candLc trackSoftPi H0 H2) as Hbad.
  split; [| split; [| split; [| split]]].
  - intros st0. unfold trackBody. rewrite Hsel, Hprong, Hbad. reflexivity.
  - rewrite process_logged. apply in_or_app. right.
    apply in_flat_map. exists candLc. split.
    + apply filter_In. now split.
    + apply in_map_iff. exists trackSoftPi. split; [reflexivity |].
      apply filter_In. split; [exact Ht |].
      unfold anomalousPair. rewrite Hsel, Hprong, Hbad. reflexivity.
  - apply process_rows.
  - intros Hin. apply acceptedPairs_In in Hin.
    destruct Hin as (_ & _ & _ & Hqt).
    apply qualifyingTrack_parts in Hqt. destruct Hqt as (_ & _ & Hok).
    congruence.
  - intros c t Hc' Ht' Hq' Hqt'. apply acceptedPairs_In. tauto.
Qed.

(** A Λc with three positive prongs and the positive track 10: the charge
    is 4, the record (3, 1) is logged, and the rows of the other pairs of
    the event are written. *)
Lemma C9_bad_charge_pair_dropped_witness :
  Z.abs (chargeSigmac Scenario.env Scenario.candPPP (Scenario.track 10 1)) = 4
  /\ trackBody Scenario.env Scenario.candPPP Creator.empty
               (Scenario.track 10 1) =
     Creator.mkState [] [LogFatalCharge 3 1]
  /\ In (LogFatalCharge 3 1)
        (Creator.logged
           (process Scenario.env Scenario.table
                    [Scenario.candA; Scenario.candC; Scenario.candPPP]
                    Creator.empty))
  /\ ~ In (Scenario.candPPP, Scenario.track 10 1)
          (acceptedPairs Scenario.env Scenario.table
                         [Scenario.candA; Scenario.candC; Scenario.candPPP]).
Proof.
  assert (Hcharge : Z.abs (chargeSigmac Scenario.env Scenario.candPPP
                                        (Scenario.track 10 1)) = 4)
    by (vm_compute; reflexivity).
  split; [exact Hcharge |].
  assert (Hc : In Scenario.candPPP
                  [Scenario.candA; Scenario.candC; Scenario.candPPP])
    by (right; right; left; reflexivity).
  assert (Ht : In (Scenario.track 10 1) Scenario.table)
    by (left; reflexivity).
  assert (Hq : qualifyingLc Scenario.env Scenario.candPPP = true)
    by (vm_compute; reflexivity).
  assert (Hsel : Creator.IsSelected Scenario.env (Scenario.track 10 1) = true)
    by (vm_compute; reflexivity).
  assert (Hprong : isProngOf Scenario.env Scenario.candPPP
                             (Scenario.track 10 1) = false)
    by (vm_compute; reflexivity).
  assert (H0 : Z.abs (chargeSigmac Scenario.env Scenario.candPPP
                                   (Scenario.track 10 1)) <> 0)
    by (rewrite Hcharge; discriminate).
  assert (H2 : Z.abs (chargeSigmac Scenario.env Scenario.candPPP
                                   (Scenario.track 10 1)) <> 2)
    by (rewrite Hcharge; discriminate).
  destruct (C9_bad_charge_pair_dropped Scenario.env Scenario.table
              [Scenario.candA; Scenario.candC; Scenario.candPPP]
              Creator.empty Scenario.candPPP (Scenario.track 10 1)
              Hc Ht Hq Hsel Hprong H0 H2)
    as (Hbody & Hlog & _ & Hnot & _).
  split; [exact (Hbody Creator.empty) |].
  split; [exact Hlog | exact Hnot].
Defined.

(** * Properties of the MC matcher *)

Section McFacts.
Context {D : Type}.
Variable env : Mc.Env D.
Variable particlesMc : list McParticle.t.

(** ** The loop over reconstructed candidates *)

Ltac mc_unfold :=
  cbn [Mc.indexRec Mc.sign Mc.flag Mc.origin Mc.chargeSigmac
       Mc.rowMCMatchScRec Mc.rowMCMatchScGen Mc.calls
       Mc.set_indexRec Mc.set_sign Mc.set_flag Mc.set_origin
       Mc.set_chargeSigmac Mc.called Mc.fillRec Mc.fillGen Mc.initial
       fst snd].

Ltac mc_cases :=
  repeat match goal with
         | |- context [if ?b then _ else _] =>
           lazymatch b with
           | context [if _ then _ else _] => fail
           | _ => destruct b eqn:?; mc_unfold
           end
         end.

Lemma recBody_rows (st : Mc.State) (candSigmac : CandSc.t D) :
  Mc.rowMCMatchScRec (recBody env particlesMc st candSigmac) =
  Mc.rowMCMatchScRec st ++ [recLabel env particlesMc candSigmac]
  /\ Mc.rowMCMatchScGen (recBody env particlesMc st candSigmac) =
     Mc.rowMCMatchScGen st.
Proof.
  unfold recLabel, recBody, matchRec, checkOrigin. mc_unfold.
  mc_cases; split; reflexivity.
Qed.

Lemma recLoop_rows (candidatesSigmac : list (CandSc.t D)) :
  forall st,
    Mc.rowMCMatchScRec (recLoop env particlesMc candidatesSigmac st) =
    Mc.rowMCMatchScRec st ++ map (recLabel env particlesMc) candidatesSigmac
    /\ Mc.rowMCMatchScGen (recLoop env particlesMc candidatesSigmac st) =
       Mc.rowMCMatchScGen st.
Proof.
  unfold recLoop.
  induction candidatesSigmac as [| c rest IH]; intros st; simpl.
  - now rewrite app_nil_r.
  - destruct (IH (recBody env particlesMc st c)) as [IHrec IHgen].
    destruct (recBody_rows st c) as [Hrec Hgen].
    rewrite IHrec, IHgen, Hrec, Hgen, <- app_assoc. split; reflexivity.
Qed.

(** State in which an iteration over a reconstructed candidate leaves
    when it fills the table right after the reset of its variables. *)
Lemma recBody_unmatched (st : Mc.State) (candSigmac : CandSc.t D) :
  Z.abs (LambdacMc.flagMcMatchRec (Mc.prongLc_as env candSigmac))
    <> Z.shiftl 1 (Mc.LcToPKPi env) ->
  recBody env particlesMc st candSigmac =
  Mc.mkState (-1) 0 0 0 (Mc.chargeSigmac st)
             (Mc.rowMCMatchScRec st ++ [(0, 0)])
             (Mc.rowMCMatchScGen st) (Mc.calls st).
Proof.
  intros Hflag. apply Z.eqb_neq in Hflag.
  unfold recBody. rewrite Hflag. reflexivity.
Qed.

Lemma recBody_other_charge (st : Mc.State) (candSigmac : CandSc.t D) :
  Z.abs (LambdacMc.flagMcMatchRec (Mc.prongLc_as env candSigmac))
    = Z.shiftl 1 (Mc.LcToPKPi env) ->
  to_int8 (CandSc.charge candSigmac) <> 0 ->
  Z.abs (to_int8 (CandSc.charge candSigmac)) <> 2 ->
  recBody env particlesMc st candSigmac =
  Mc.mkState (-1) 0 0 0 (to_int8 (CandSc.charge candSigmac))
             (Mc.rowMCMatchScRec st ++ [(0, 0)])
             (Mc.rowMCMatchScGen st) (Mc.calls st).
Proof.
  intros Hflag H0 H2.
  apply Z.eqb_eq in Hflag. apply Z.eqb_neq in H0. apply Z.eqb_neq in H2.
  unfold recBody, checkOrigin. rewrite Hflag. mc_unfold. simpl negb. cbv iota.
  rewrite H0, H2. mc_unfold. reflexivity.
Qed.

(** ** The loop over generated particles *)

Lemma daughterLoop_frame (particle decayType : Z) (daughters : list Z) :
  forall st,
    let st' := daughterLoop env particlesMc particle decayType daughters st in
    Mc.indexRec st' = Mc.indexRec st
    /\ Mc.origin st' = Mc.origin st
    /\ Mc.rowMCMatchScRec st' = Mc.rowMCMatchScRec st
    /\ Mc.rowMCMatchScGen st' = Mc.rowMCMatchScGen st
    /\ Mc.flag st' =
       daughterFlag env particlesMc particle decayType daughters (Mc.flag st)
    /\ exists matching,
         Mc.calls st' = Mc.calls st ++ matching
         /\ forallb (isGenCallOf particle) matching = true.
Proof.
  induction daughters as [| d rest IH]; intros st;
    cbn [daughterLoop daughterFlag].
  - repeat split. exists []. split; [now rewrite app_nil_r | reflexivity].
  - destruct (negb (Z.abs (pdgCodeAt particlesMc d) =? kLambdaCPlus)).
    + apply IH.
    + unfold callIsMatchedMCGen.
      match goal with
      | |- context [if fst ?r then _ else _] => destruct (fst r)
      end.
      * mc_unfold. repeat split.
        eexists. split; [reflexivity |].
        cbn [forallb isGenCallOf]. now rewrite Z.eqb_refl.
      * match goal with
        | |- context [daughterLoop _ _ _ _ rest ?s] =>
          destruct (IH s) as (Hi & Ho & Hr & Hg & Hf & matching & Hc & Hm)
        end.
        revert Hi Ho Hr Hg Hf Hc. mc_unfold. intros Hi Ho Hr Hg Hf Hc.
        repeat split; try assumption.
        eexists. split.
        -- rewrite Hc, <- app_assoc. reflexivity.
        -- cbn [app forallb isGenCallOf]. now rewrite Z.eqb_refl.
Qed.

Lemma genMatch_frame (st : Mc.State) (particle : Z * McParticle.t) :
  let st' := genMatch env particlesMc st particle in
  Mc.indexRec st' = Mc.indexRec st
  /\ Mc.origin st' = 0
  /\ Mc.rowMCMatchScRec st' = Mc.rowMCMatchScRec st
  /\ Mc.rowMCMatchScGen st' = Mc.rowMCMatchScGen st
  /\ Mc.flag st' = genFlag env particlesMc particle
  /\ exists matching,
       Mc.calls st' = Mc.calls st ++ matching
       /\ forallb (isGenCallOf (fst particle)) matching = true.
Proof.
  unfold genMatch, genFlag, callIsMatchedMCGen.
  match goal with
  | |- context [if fst ?r then _ else _] => destruct (fst r)
  end.
  - match goal with
    | |- context [daughterLoop _ _ ?p ?k ?ds ?s] =>
      destruct (daughterLoop_frame p k ds s)
        as (Hi & Ho & Hr & Hg & Hf & matching & Hc & Hm)
    end.
    revert Hi Ho Hr Hg Hf Hc. mc_unfold. intros Hi Ho Hr Hg Hf Hc.
    repeat split; try assumption.
    eexists. split.
    + rewrite Hc, <- app_assoc. reflexivity.
    + cbn [app forallb isGenCallOf]. now rewrite Z.eqb_refl.
  - match goal with
    | |- context [if fst ?r then _ else _] => destruct (fst r)
    end.
    + match goal with
      | |- context [daughterLoop _ _ ?p ?k ?ds ?s] =>
        destruct (daughterLoop_frame p k ds s)
          as (Hi & Ho & Hr & Hg & Hf & matching & Hc & Hm)
      end.
      revert Hi Ho Hr Hg Hf Hc. mc_unfold. intros Hi Ho Hr Hg Hf Hc.
      repeat split; try assumption.
      eexists. split.
      * rewrite Hc, <- !app_assoc. reflexivity.
      * cbn [app forallb isGenCallOf]. now rewrite !Z.eqb_refl.
    + mc_unfold. repeat split.
      eexists. split.
      * rewrite <- app_assoc. reflexivity.
      * cbn [app forallb isGenCallOf]. now rewrite !Z.eqb_refl.
Qed.

(** What one iteration over a generated particle does to the state: its
    flag is [genFlag]; when the flag is set, the origin is the one of the
    particle at position [indexRec], a variable that the iteration only
    reads; one row is added to the generation-level table. *)
Lemma genBody_spec (st : Mc.State) (particle : Z * McParticle.t) :
  let st' := genBody env particlesMc st particle in
  Mc.indexRec st' = Mc.indexRec st
  /\ Mc.rowMCMatchScRec st' = Mc.rowMCMatchScRec st
  /\ Mc.rowMCMatchScGen st' =
     Mc.rowMCMatchScGen st ++ [(Mc.flag st', Mc.origin st')]
  /\ Mc.flag st' = genFlag env particlesMc particle
  /\ Mc.origin st' =
     (if negb (genFlag env particlesMc particle =? 0)
      then to_int8 (RecoDecay.getCharmHadronOrigin (Mc.reco env) particlesMc
                      (Mc.indexRec st))
      else 0)
  /\ exists matching,
       forallb (isGenCallOf (fst particle)) matching = true
       /\ Mc.calls st' =
          Mc.calls st ++ matching
            ++ (if negb (genFlag env particlesMc particle =? 0)
                then [CallGetCharmHadronOrigin (Mc.indexRec st)]
                else []).
Proof.
  unfold genBody, checkOrigin.
  destruct (genMatch_frame st particle)
    as (Hi & Ho & Hr & Hg & Hf & matching & Hc & Hm).
  cbv zeta in Hi, Ho, Hr, Hg, Hf, Hc.
  rewrite Hf, Hi.
  destruct (negb (genFlag env particlesMc particle =? 0)); mc_unfold.
  - rewrite Hi, Hr, Hg, Hf, Hc. repeat split.
    exists matching. split; [exact Hm | now rewrite <- app_assoc].
  - rewrite Hi, Hr, Hg, Hf, Ho, Hc. repeat split.
    exists matching. split; [exact Hm | now rewrite app_nil_r].
Qed.

Lemma genLabel_eq (indexRec : Z) (particle : Z * McParticle.t) :
  genLabel env particlesMc indexRec particle =
  (genFlag env particlesMc particle,
   if negb (genFlag env particlesMc particle =? 0)
   then to_int8 (RecoDecay.getCharmHadronOrigin (Mc.reco env) particlesMc
                   indexRec)
   else 0).
Proof.
  unfold genLabel.
  destruct (genBody_spec (Mc.set_indexRec indexRec Mc.initial) particle)
    as (_ & _ & _ & Hf & Ho & _).
  cbv zeta in Hf, Ho. rewrite Hf, Ho. reflexivity.
Qed.

Lemma genBody_rows (st : Mc.State) (particle : Z * McParticle.t) :
  Mc.rowMCMatchScGen (genBody env particlesMc st particle) =
  Mc.rowMCMatchScGen st
    ++ [genLabel env particlesMc (Mc.indexRec st) particle].
Proof.
  destruct (genBody_spec st particle) as (_ & _ & Hg & Hf & Ho & _).
  cbv zeta in Hg, Hf, Ho.
  rewrite Hg, genLabel_eq, Hf, Ho. reflexivity.
Qed.

Lemma genLoop_rows_from (particles : list (Z * McParticle.t)) :
  forall st,
    let st' := fold_left (genBody env particlesMc) particles st in
    Mc.rowMCMatchScGen st' =
    Mc.rowMCMatchScGen st
      ++ map (genLabel env particlesMc (Mc.indexRec st)) particles
    /\ Mc.rowMCMatchScRec st' = Mc.rowMCMatchScRec st
    /\ Mc.indexRec st' = Mc.indexRec st.
Proof.
  induction particles as [| p rest IH]; intros st; simpl.
  - rewrite app_nil_r. repeat split.
  - destruct (IH (genBody env particlesMc st p)) as (IHg & IHr & IHi).
    destruct (genBody_spec st p) as (Hi & Hr & _).
    cbv zeta in IHg, IHr, IHi, Hi, Hr.
    rewrite IHg, IHr, IHi, Hi, Hr, genBody_rows, <- app_assoc.
    repeat split.
Qed.

End McFacts.

(** ** Reconstruction level: short circuits *)

(** C7. When the magnitude of the reconstruction-level flag of the Λc is
    not exactly [1 << LcToPKPi], the iteration writes the label (0, 0),
    calls no matching routine, and ends in the same state whatever the
    generated particles and the matching routines are. *)
Theorem C7_rec_short_circuit {D : Type} (env : Mc.Env D)
    (particlesMc : list McParticle.t) (st : Mc.State)
    (candSigmac : CandSc.t D) :
  Z.abs (LambdacMc.flagMcMatchRec (Mc.prongLc_as env candSigmac))
    <> Z.shiftl 1 (Mc.LcToPKPi env) ->
  let st' := recBody env particlesMc st candSigmac in
  Mc.rowMCMatchScRec st' = Mc.rowMCMatchScRec st ++ [(0, 0)]
  /\ Mc.rowMCMatchScGen st' = Mc.rowMCMatchScGen st
  /\ Mc.calls st' = Mc.calls st
  /\ (forall reco' particlesMc',
         recBody (withReco env reco') particlesMc' st candSigmac = st').
Proof.
  intros Hflag st'. subst st'.
  rewrite (recBody_unmatched env particlesMc st candSigmac Hflag).
  repeat split.
  intros reco' particlesMc'.
  now rewrite (recBody_unmatched (withReco env reco') particlesMc' st
                 candSigmac Hflag).
Qed.

(** The Σc++ of scenario A with a Λc whose flag is 6: the bit of the
    decay type is set but the magnitude is not the expected one. *)
Lemma C7_rec_short_circuit_witness :
  Z.abs (LambdacMc.flagMcMatchRec
           (Mc.prongLc_as (Scenario.envMc 6) Scenario.candScPP))
    <> Z.shiftl 1 (Mc.LcToPKPi (Scenario.envMc 6))
  /\ Mc.rowMCMatchScRec
       (recBody (Scenario.envMc 6) Scenario.treeD Mc.initial
                Scenario.candScPP) = [(0, 0)]
  /\ Mc.calls
       (recBody (Scenario.envMc 6) Scenario.treeD Mc.initial
                Scenario.candScPP) = [].
Proof.
  assert (Hflag : Z.abs (LambdacMc.flagMcMatchRec
                           (Mc.prongLc_as (Scenario.envMc 6)
                                          Scenario.candScPP))
                  <> Z.shiftl 1 (Mc.LcToPKPi (Scenario.envMc 6)))
    by (vm_compute; discriminate).
  split; [exact Hflag |].
  destruct (C7_rec_short_circuit (Scenario.envMc 6) Scenario.treeD
              Mc.initial Scenario.candScPP Hflag) as (Hrow & _ & Hcalls & _).
  split; [exact Hrow | exact Hcalls].
Defined.

(** C10. When the Λc passed the exact-match test and the stored charge,
    read into the [int8_t] variable, is neither 0 nor of magnitude 2, the
    iteration calls no routine (neither matching branch runs, the origin
    is not looked up) and writes the label (0, 0). *)
Theorem C10_rec_other_charge {D : Type} (env : Mc.Env D)
    (particlesMc : list McParticle.t) (st : Mc.State)
    (candSigmac : CandSc.t D) :
  Z.abs (LambdacMc.flagMcMatchRec (Mc.prongLc_as env candSigmac))
    = Z.shiftl 1 (Mc.LcToPKPi env) ->
  to_int8 (CandSc.charge candSigmac) <> 0 ->
  Z.abs (to_int8 (CandSc.charge candSigmac)) <> 2 ->
  let st' := recBody env particlesMc st candSigmac in
  Mc.rowMCMatchScRec st' = Mc.rowMCMatchScRec st ++ [(0, 0)]
  /\ Mc.rowMCMatchScGen st' = Mc.rowMCMatchScGen st
  /\ Mc.calls st' = Mc.calls st.
Proof.
  intros Hflag H0 H2 st'. subst st'.
  rewrite (recBody_other_charge env particlesMc st candSigmac Hflag H0 H2).
  repeat split.
Qed.

(** A stored row of charge 1 whose Λc is matched. *)
Lemma C10_rec_other_charge_witness :
  to_int8 (CandSc.charge Scenario.candScOdd) = 1
  /\ Mc.rowMCMatchScRec
       (recBody (Scenario.envMc 2) Scenario.treeD Mc.initial
                Scenario.candScOdd) = [(0, 0)]
  /\ Mc.calls
       (recBody (Scenario.envMc 2) Scenario.treeD Mc.initial
                Scenario.candScOdd) = [].
Proof.
  assert (Hcharge : to_int8 (CandSc.charge Scenario.candScOdd) = 1)
    by (vm_compute; reflexivity).
  split; [exact Hcharge |].
  assert (Hflag : Z.abs (LambdacMc.flagMcMatchRec
                           (Mc.prongLc_as (Scenario.envMc 2)
                                          Scenario.candScOdd))
                  = Z.shiftl 1 (Mc.LcToPKPi (Scenario.envMc 2)))
    by (vm_compute; reflexivity).
  assert (H0 : to_int8 (CandSc.charge Scenario.candScOdd) <> 0)
    by (rewrite Hcharge; discriminate).
  assert (H2 : Z.abs (to_int8 (CandSc.charge Scenario.candScOdd)) <> 2)
    by (rewrite Hcharge; discriminate).
  destruct (C10_rec_other_charge (Scenario.envMc 2) Scenario.treeD
              Mc.initial Scenario.candScOdd Hflag H0 H2)
    as (Hrow & _ & Hcalls).
  split; [exact Hrow | exact Hcalls].
Defined.

(** ** Alignment of the label tables *)

Lemma enumerateFrom_snd {A : Type} (rows : list A) :
  forall i, map snd (enumerateFrom i rows) = rows.
Proof.
  induction rows as [| r rest IH]; intros i; simpl.
  - reflexivity.
  - now rewrite IH.
Qed.

Lemma enumerateFrom_fst {A : Type} (rows : list A) :
  forall i n p,
    nth_error (enumerateFrom i rows) n = Some p -> fst p = i + Z.of_nat n.
Proof.
  induction rows as [| r rest IH]; intros i n p Hnth.
  - destruct n; discriminate.
  - destruct n as [| n]; simpl in Hnth.
    + inversion Hnth. simpl. lia.
    + apply IH in Hnth. lia.
Qed.

Lemma processMc_rows {D : Type} (env : Mc.Env D)
    (particlesMc : list McParticle.t) (candidatesSigmac : list (CandSc.t D)) :
  Mc.rowMCMatchScRec (processMc env particlesMc candidatesSigmac) =
  map (recLabel env particlesMc) candidatesSigmac
  /\ Mc.rowMCMatchScGen (processMc env particlesMc candidatesSigmac) =
     map (genLabel env particlesMc
            (Mc.indexRec (recLoop env particlesMc candidatesSigmac Mc.initial)))
         (enumerate particlesMc).
Proof.
  unfold processMc, genLoop.
  destruct (recLoop_rows env particlesMc candidatesSigmac Mc.initial)
    as [Hrec Hgen].
  destruct (genLoop_rows_from env particlesMc (enumerate particlesMc)
              (recLoop env particlesMc candidatesSigmac Mc.initial))
    as (Hg & Hr & _).
  cbv zeta in Hg, Hr. simpl in Hrec, Hgen.
  rewrite Hg, Hr, Hrec, Hgen. split; reflexivity.
Qed.

(** C8. [processMc] writes one reconstruction-level label per Σc
    candidate and one generation-level label per generated particle, in
    the order of the input rows: the first table is the image of the
    candidates under [recLabel], the second the image of the particles,
    taken with their positions, under [genLabel]. *)
Theorem C8_label_alignment {D : Type} (env : Mc.Env D)
    (particlesMc : list McParticle.t) (candidatesSigmac : list (CandSc.t D)) :
  Mc.rowMCMatchScRec (processMc env particlesMc candidatesSigmac) =
  map (recLabel env particlesMc) candidatesSigmac
  /\ Mc.rowMCMatchScGen (processMc env particlesMc candidatesSigmac) =
     map (genLabel env particlesMc
            (Mc.indexRec (recLoop env particlesMc candidatesSigmac Mc.initial)))
         (enumerate particlesMc)
  /\ map snd (enumerate particlesMc) = particlesMc
  /\ (forall n p, nth_error (enumerate particlesMc) n = Some p ->
                  fst p = Z.of_nat n)
  /\ length (Mc.rowMCMatchScRec (processMc env particlesMc candidatesSigmac))
     = length candidatesSigmac
  /\ length (Mc.rowMCMatchScGen (processMc env particlesMc candidatesSigmac))
     = length particlesMc.
Proof.
  destruct (processMc_rows env particlesMc candidatesSigmac) as [Hrec Hgen].
  assert (Hsnd : map snd (enumerate particlesMc) = particlesMc)
    by apply enumerateFrom_snd.
  rewrite Hrec, Hgen.
  split; [reflexivity |]. split; [reflexivity |]. split; [exact Hsnd |].
  split.
  - intros n p Hnth. now apply enumerateFrom_fst in Hnth.
  - split.
    + apply length_map.
    + rewrite length_map.
      transitivity (length (map snd (enumerate particlesMc))).
      * symmetry. apply length_map.
      * now rewrite Hsnd.
Qed.

(** ** Generation level: the second-level call *)

Lemma daughterFlag_other_species {D : Type} (env : Mc.Env D)
    (particlesMc : list McParticle.t) (particle decayType : Z)
    (daughters : list Z) (flag0 : Z) :
  respectsSpecies (Mc.reco env) ->
  Z.abs (pdgCodeAt particlesMc particle) <> Z.abs kLambdaCPlus ->
  daughterFlag env particlesMc particle decayType daughters flag0 = flag0.
Proof.
  intros Hresp Hspecies.
  induction daughters as [| d rest IH]; cbn [daughterFlag].
  - reflexivity.
  - destruct (negb (Z.abs (pdgCodeAt particlesMc d) =? kLambdaCPlus));
      [exact IH |].
    match goal with
    | |- context [if fst ?r then _ else _] => destruct (fst r) eqn:Hmatch
    end; [| exact IH].
    apply Hresp in Hmatch. contradiction.
Qed.

Lemma genFlag_zero {D : Type} (env : Mc.Env D)
    (particlesMc : list McParticle.t) (particle : Z * McParticle.t) :
  respectsSpecies (Mc.reco env) ->
  genFlag env particlesMc particle = 0.
Proof.
  intros Hresp. unfold genFlag.
  match goal with
  | |- context [if fst ?r then _ else _] => destruct (fst r) eqn:Hsc0
  end.
  - apply daughterFlag_other_species; [exact Hresp |].
    apply Hresp in Hsc0. rewrite Hsc0. discriminate.
  - match goal with
    | |- context [if fst ?r then _ else _] => destruct (fst r) eqn:Hscpp
    end; [| reflexivity].
    apply daughterFlag_other_species; [exact Hresp |].
    apply Hresp in Hscpp. rewrite Hscpp. discriminate.
Qed.

Lemma model_respectsSpecies (mcParticleId : Z -> Z) :
  respectsSpecies (RecoDecayModel.reco mcParticleId).
Proof.
  intros particlesMc candidate PDGParticle arrPDGDaughters acceptAnti depthMax.
  cbn [RecoDecayModel.reco RecoDecay.isMatchedMCGen].
  unfold RecoDecayModel.isMatchedMCGen, RecoDecayModel.signOfSpecies.
  destruct (pdgCodeAt particlesMc candidate =? PDGParticle) eqn:Hsame.
  - intros _. apply Z.eqb_eq in Hsame. now rewrite Hsame.
  - destruct (acceptAnti && (pdgCodeAt particlesMc candidate =? - PDGParticle))
      eqn:Hanti.
    + intros _. apply andb_true_iff in Hanti. destruct Hanti as [_ Hanti].
      apply Z.eqb_eq in Hanti. rewrite Hanti. apply Z.abs_opp.
    + simpl. discriminate.
Qed.

(** C5. Every call to the generation-level matcher made in an iteration,
    the second-level ones of the loop over daughters included, is made
    for the generated particle of the outer loop and not for its daughter.
    So with matching routines that only accept a candidate of the
    requested species, the Σc that passed the first level is never
    accepted as a Λc, and every generation-level label is (0, 0). *)
Theorem C5_gen_flag_never_set {D : Type} (env : Mc.Env D)
    (particlesMc : list McParticle.t) (candidatesSigmac : list (CandSc.t D)) :
  respectsSpecies (Mc.reco env) ->
  (forall st particle,
      exists matching,
        Mc.calls (genMatch env particlesMc st particle) =
        Mc.calls st ++ matching
        /\ forallb (isGenCallOf (fst particle)) matching = true)
  /\ Forall (fun label => label = (0, 0))
            (Mc.rowMCMatchScGen (processMc env particlesMc candidatesSigmac)).
Proof.
  intros Hresp. split.
  - intros st particle.
    destruct (genMatch_frame env particlesMc st particle)
      as (_ & _ & _ & _ & _ & Hcalls).
    exact Hcalls.
  - destruct (processMc_rows env particlesMc candidatesSigmac)
      as (_ & Hgen).
    rewrite Hgen. apply Forall_forall. intros label Hin.
    apply in_map_iff in Hin. destruct Hin as [particle [Hlabel _]].
    rewrite genLabel_eq, (genFlag_zero env particlesMc particle Hresp) in Hlabel.
    now subst label.
Qed.

(** Scenario D: the Σc++ has the daughters Λc+ and π+, its Λc+ daughter
    decays into p K- π+, and no generation-level flag is set. *)
Lemma C5_gen_flag_never_set_witness :
  RecoDecayModel.isMatchedMCGen Scenario.treeD 0 kSigmaCPlusPlus
    [kLambdaCPlus; kPiPlus] true 1 = (true, 1)
  /\ RecoDecayModel.isMatchedMCGen Scenario.treeD 1 kLambdaCPlus
       [kProton; - kKPlus; kPiPlus] true 2 = (true, 1)
  /\ Forall (fun label => label = (0, 0))
            (Mc.rowMCMatchScGen
               (processMc (Scenario.envMc 2) Scenario.treeD
                          Scenario.candidatesSigmacA)).
Proof.
  split; [vm_compute; reflexivity |].
  split; [vm_compute; reflexivity |].
  exact (proj2 (C5_gen_flag_never_set (Scenario.envMc 2) Scenario.treeD
                  Scenario.candidatesSigmacA
                  (model_respectsSpecies Scenario.mcParticleId))).
Defined.

(** * Further properties *)

(** ** [init]: the ITS hit map *)

Lemma TESTBIT_testbit (n i : Z) :
  0 <= i -> TESTBIT n i = Z.testbit n i.
Proof.
  intros Hi. unfold TESTBIT. rewrite Z.shiftl_1_l.
  destruct (Z.testbit n i) eqn:Hbit.
  - apply negb_true_iff, Z.eqb_neq. intros Hzero.
    assert (Hland : Z.testbit (Z.land n (2 ^ i)) i = true).
    { rewrite Z.land_spec, Hbit, Z.pow2_bits_true by exact Hi. reflexivity. }
    rewrite Hzero, Z.bits_0 in Hland. discriminate.
  - apply negb_false_iff, Z.eqb_eq, Z.bits_inj'. intros j Hj.
    rewrite Z.land_spec, Z.bits_0, (Z.pow2_bits_eqb i j Hi).
    destruct (Z.eqb_spec i j) as [Heq | Hneq].
    + subst j. rewrite Hbit. reflexivity.
    + apply andb_false_r.
Qed.

Lemma filter_StronglySorted {A : Type} (R : A -> A -> Prop)
    (f : A -> bool) (l : list A) :
  StronglySorted R l -> StronglySorted R (filter f l).
Proof.
  induction 1 as [| a l Hsorted IH Hall]; simpl.
  - constructor.
  - destruct (f a); [| exact IH].
    constructor; [exact IH |].
    apply Forall_forall. intros x Hx. apply filter_In in Hx.
    rewrite Forall_forall in Hall. apply Hall. tauto.
Qed.

(** X1. The set of ITS layers built by [init] holds exactly the layers 0..6
    whose bit is set in the configured hit map, each once and in
    increasing order. *)
Theorem setSoftPiItsHitMap_layers (softPiItsHitMap : Z) :
  (forall i, In i (setSoftPiItsHitMap softPiItsHitMap) <->
             0 <= i < 7 /\ Z.testbit softPiItsHitMap i = true)
  /\ StronglySorted Z.lt (setSoftPiItsHitMap softPiItsHitMap)
  /\ (length (setSoftPiItsHitMap softPiItsHitMap) <= 7)%nat.
Proof.
  unfold setSoftPiItsHitMap. split; [| split].
  - intros i. rewrite filter_In. split.
    + intros [Hin Hbit].
      assert (Hrange : 0 <= i < 7) by (simpl in Hin; lia).
      rewrite TESTBIT_testbit in Hbit by lia. tauto.
    + intros [Hrange Hbit]. split.
      * simpl. lia.
      * rewrite TESTBIT_testbit by lia. exact Hbit.
  - apply filter_StronglySorted.
    repeat (constructor; [| repeat (constructor; try lia)]). constructor.
  - apply (filter_length_le _ [0; 1; 2; 3; 4; 5; 6]).
Qed.

(** X2. Bits 7 and above of the configured hit map play no part: the layers
    are those of the map reduced modulo 128. *)
Theorem setSoftPiItsHitMap_low_bits (softPiItsHitMap : Z) :
  setSoftPiItsHitMap (softPiItsHitMap mod 128) =
  setSoftPiItsHitMap softPiItsHitMap.
Proof.
  unfold setSoftPiItsHitMap. apply filter_ext_in. intros i Hin.
  assert (Hrange : 0 <= i < 7) by (simpl in Hin; lia).
  rewrite !TESTBIT_testbit by lia.
  change 128 with (2 ^ 7). apply Z.mod_pow2_bits_low. lia.
Qed.

(** ** [process]: what the loops skip *)

Lemma trackLoop_selected {D : Type} `{DoubleOps D} (env : Creator.Env D)
    (candLc : CandLc.t D) (tracks : list (Track.t D)) :
  forall st,
    trackLoop env candLc tracks st =
    trackLoop env candLc (filter (Creator.IsSelected env) tracks) st.
Proof.
  unfold trackLoop.
  induction tracks as [| t rest IH]; intros st; simpl.
  - reflexivity.
  - destruct (Creator.IsSelected env t) eqn:Hsel; simpl.
    + apply IH.
    + rewrite <- IH. unfold trackBody at 2. now rewrite Hsel.
Qed.

(** X3. [process] ends in the same state, table and log, when the tracks that
    fail the soft-pion cuts and the candidates that fail one of the three
    candidate tests are removed from its input. *)
Theorem process_skips_rejected {D : Type} `{DoubleOps D}
    (env : Creator.Env D)
    (tracks : list (Track.t D)) (candidates : list (CandLc.t D)) :
  forall st,
    process env tracks candidates st =
    process env (filter (Creator.IsSelected env) tracks)
            (filter (qualifyingLc env) candidates) st.
Proof.
  unfold process.
  induction candidates as [| c rest IH]; intros st; simpl.
  - reflexivity.
  - destruct (qualifyingLc env c) eqn:Hq; simpl.
    + rewrite !candBody_loop by exact Hq.
      rewrite <- trackLoop_selected. apply IH.
    + rewrite candBody_skip by exact Hq. apply IH.
Qed.

Lemma not_selected_not_qualifying {D : Type} `{DoubleOps D}
    (env : Creator.Env D) (candLc : CandLc.t D) :
  Config.selectionFlagLc (Creator.cfg env) <= 1 ->
  filterSelectCandidateLc env candLc = false ->
  qualifyingLc env candLc = false.
Proof.
  unfold filterSelectCandidateLc. intros Hflag Hfilter.
  apply orb_false_iff in Hfilter. destruct Hfilter as [HA HB].
  apply Z.leb_gt in HA. apply Z.leb_gt in HB.
  apply qualifyingLc_of_pass.
  - unfold passPKPi.
    assert (Hsel : (1 <=? CandLc.isSelLcToPKPi candLc) = false)
      by (apply Z.leb_gt; lia).
    now rewrite Hsel.
  - unfold passPiKP.
    assert (Hsel : (1 <=? CandLc.isSelLcToPiKP candLc) = false)
      by (apply Z.leb_gt; lia).
    now rewrite Hsel.
Qed.

(** X4. With a selection flag of at most 1, the declared [Filter] removes no
    candidate that [process] would use: the mass-window tests ask for a
    selection status of at least 1, so the run on the filtered candidates
    and the run on all of them end in the same state. *)
Theorem processFiltered_redundant {D : Type} `{DoubleOps D}
    (env : Creator.Env D)
    (tracks : list (Track.t D)) (candidates : list (CandLc.t D)) :
  Config.selectionFlagLc (Creator.cfg env) <= 1 ->
  forall st,
    processFiltered env tracks candidates st =
    process env tracks candidates st.
Proof.
  intros Hflag. unfold processFiltered, process.
  induction candidates as [| c rest IH]; intros st; simpl.
  - reflexivity.
  - destruct (filterSelectCandidateLc env c) eqn:Hfilter; simpl.
    + apply IH.
    + rewrite (candBody_skip env tracks st c
                 (not_selected_not_qualifying env c Hflag Hfilter)).
      apply IH.
Qed.

(** The default flag 1 on an event whose second candidate is selected
    for neither hypothesis. *)
Lemma processFiltered_redundant_witness :
  Config.selectionFlagLc (Creator.cfg Scenario.env) <= 1
  /\ processFiltered Scenario.env Scenario.table
       [Scenario.candA; Scenario.candLc 4 10 11 12 0 0] Creator.empty =
     process Scenario.env Scenario.table
       [Scenario.candA; Scenario.candLc 4 10 11 12 0 0] Creator.empty.
Proof.
  assert (Hflag : Config.selectionFlagLc (Creator.cfg Scenario.env) <= 1)
    by (vm_compute; discriminate).
  split; [exact Hflag |].
  exact (processFiltered_redundant Scenario.env Scenario.table
           [Scenario.candA; Scenario.candLc 4 10 11 12 0 0] Hflag
           Creator.empty).
Defined.

(** ** [process]: what the rows hold *)

Lemma qualifyingLc_parts {D : Type} `{DoubleOps D} (env : Creator.Env D)
    (candLc : CandLc.t D) :
  qualifyingLc env candLc = true ->
  hasDecayFlag env candLc = true
  /\ outsideRapidity env candLc = false
  /\ noMassWindow env candLc = false.
Proof.
  unfold qualifyingLc. intros Hq.
  apply andb_true_iff in Hq. destruct Hq as [Hq Hm].
  apply andb_true_iff in Hq. destruct Hq as [Hf Hy].
  apply negb_true_iff in Hm. apply negb_true_iff in Hy. tauto.
Qed.

(** X5. Every row that [process] adds has the decay-type bit set in its
    [hfflag], its two mass-window status columns equal to 0 or 1 and not
    both 0; a status column is 1 only for a hypothesis whose selection
    status is at least 1. *)
Theorem emitted_rows_status {D : Type} `{DoubleOps D} (env : Creator.Env D)
    (tracks : list (Track.t D)) (candidates : list (CandLc.t D))
    (st : Creator.State D) :
  exists pairs,
    Creator.rowScCandidates (process env tracks candidates st) =
    Creator.rowScCandidates st ++ map (pairRow env) pairs
    /\ Forall
         (fun p =>
            let row := pairRow env p in
            Z.land (CandSc.hfflag row) (Z.shiftl 1 (Creator.LcToPKPi env)) <> 0
            /\ (CandSc.statusSpreadLcMinvPKPiFromPDG row = 0
                \/ CandSc.statusSpreadLcMinvPKPiFromPDG row = 1)
            /\ (CandSc.statusSpreadLcMinvPiKPFromPDG row = 0
                \/ CandSc.statusSpreadLcMinvPiKPFromPDG row = 1)
            /\ (CandSc.statusSpreadLcMinvPKPiFromPDG row = 1
                \/ CandSc.statusSpreadLcMinvPiKPFromPDG row = 1)
            /\ (CandSc.statusSpreadLcMinvPKPiFromPDG row = 1 ->
                1 <= CandLc.isSelLcToPKPi (fst p))
            /\ (CandSc.statusSpreadLcMinvPiKPFromPDG row = 1 ->
                1 <= CandLc.isSelLcToPiKP (fst p)))
         pairs.
Proof.
  exists (acceptedPairs env tracks candidates).
  split; [apply process_rows |].
  apply Forall_forall. intros [c t] Hin.
  apply acceptedPairs_In in Hin. destruct Hin as (_ & _ & Hq & _).
  apply qualifyingLc_parts in Hq. destruct Hq as (Hflag & _ & Hmass).
  unfold pairRow, rowOf. cbn [fst snd CandSc.hfflag
    CandSc.statusSpreadLcMinvPKPiFromPDG CandSc.statusSpreadLcMinvPiKPFromPDG].
  unfold hasDecayFlag in Hflag. apply negb_true_iff, Z.eqb_neq in Hflag.
  unfold noMassWindow in Hmass. revert Hmass.
  unfold statusSpreadMinvPKPiFromPDG, statusSpreadMinvPiKPFromPDG.
  destruct (1 <=? CandLc.isSelLcToPKPi c) eqn:HselA;
    destruct (1 <=? CandLc.isSelLcToPiKP c) eqn:HselB;
    cbn [andb];
    repeat match goal with
           | |- context [if ?b then 1 else 0] => destruct b
           end;
    cbn; intros Hmass; try discriminate;
    try apply Z.leb_le in HselA; try apply Z.leb_le in HselB;
    repeat split; auto; try (intros; discriminate); try (right; reflexivity);
    try (left; reflexivity).
Qed.

(** ** [process]: the charge check *)

(** X6. When the three prongs and the soft pion all have sign +1 or -1, the
    charge written or logged is the plain sum of the four signs; it is
    never 1 or -1, and the check fails exactly when the four signs are
    equal, the charge then being 4 or -4. *)
Theorem unit_signs_charge {D : Type} (env : Creator.Env D)
    (candLc : CandLc.t D) (trackSoftPi : Track.t D) :
  let s0 := Track.sign (Creator.prong_as env (CandLc.prong0Id candLc)) in
  let s1 := Track.sign (Creator.prong_as env (CandLc.prong1Id candLc)) in
  let s2 := Track.sign (Creator.prong_as env (CandLc.prong2Id candLc)) in
  let sPi := Track.sign trackSoftPi in
  (s0 = 1 \/ s0 = -1) -> (s1 = 1 \/ s1 = -1) -> (s2 = 1 \/ s2 = -1) ->
  (sPi = 1 \/ sPi = -1) ->
  chargeSigmac env candLc trackSoftPi = s0 + s1 + s2 + sPi
  /\ chargeSigmac env candLc trackSoftPi <> 1
  /\ chargeSigmac env candLc trackSoftPi <> -1
  /\ (badCharge env candLc trackSoftPi = true <->
      s0 = s1 /\ s1 = s2 /\ s2 = sPi)
  /\ (badCharge env candLc trackSoftPi = true ->
      Z.abs (chargeSigmac env candLc trackSoftPi) = 4).
Proof.
  intros s0 s1 s2 sPi H0 H1 H2 HPi.
  unfold badCharge, chargeSigmac, chargeLc, chargeSoftPi.
  fold s0 s1 s2 sPi.
  destruct H0 as [H0 | H0], H1 as [H1 | H1], H2 as [H2 | H2],
    HPi as [HPi | HPi]; rewrite H0, H1, H2, HPi; vm_compute;
    repeat split; try discriminate; try reflexivity;
    try (intros; discriminate);
    try (intros (Ha & Hb & Hc); discriminate).
Qed.

(** Scenario A, track 21: signs +1, -1, +1 and +1 give charge 2. *)
Lemma unit_signs_charge_witness :
  chargeSigmac Scenario.env Scenario.candA (Scenario.track 21 1) = 1 + -1 + 1 + 1
  /\ chargeSigmac Scenario.env Scenario.candA (Scenario.track 21 1) <> 1.
Proof.
  destruct (unit_signs_charge Scenario.env Scenario.candA
              (Scenario.track 21 1)
              (or_introl eq_refl) (or_intror eq_refl) (or_introl eq_refl)
              (or_introl eq_refl)) as (Hsum & Hone & _).
  split; [exact Hsum | exact Hone].
Defined.

Lemma reaching_split {D : Type} (env : Creator.Env D)
    (candLc : CandLc.t D) (tracks : list (Track.t D)) :
  (length (filter (qualifyingTrack env candLc) tracks)
   + length (filter (anomalousPair env candLc) tracks))%nat
  = length (filter (reachesChargeCheck env candLc) tracks).
Proof.
  induction tracks as [| t rest IH]; simpl.
  - reflexivity.
  - unfold qualifyingTrack, anomalousPair, reachesChargeCheck in *.
    destruct (Creator.IsSelected env t); simpl; [| exact IH].
    destruct (isProngOf env candLc t); simpl; [exact IH |].
    destruct (badCharge env candLc t); simpl; lia.
Qed.

(** X7. Each pair that reaches the charge check gives either one row or one
    log record: the rows and the log records that [process] adds are
    together as many as the pairs of a qualifying candidate with a
    selected track that is not one of its prongs. *)
Theorem rows_and_log_records {D : Type} `{DoubleOps D} (env : Creator.Env D)
    (tracks : list (Track.t D)) (candidates : list (CandLc.t D))
    (st : Creator.State D) :
  (length (Creator.rowScCandidates (process env tracks candidates st))
   + length (Creator.logged (process env tracks candidates st)))%nat
  = (length (Creator.rowScCandidates st) + length (Creator.logged st)
     + length (flat_map
                 (fun c => filter (reachesChargeCheck env c) tracks)
                 (filter (qualifyingLc env) candidates)))%nat.
Proof.
  rewrite process_rows, process_logged, !length_app, length_map.
  unfold acceptedPairs.
  induction (filter (qualifyingLc env) candidates) as [| c rest IH]; simpl.
  - lia.
  - rewrite !length_app, !length_map, <- (reaching_split env c tracks). lia.
Qed.

(** ** [process]: identifiers compared as [int] *)

Lemma to_int_congruent (a b : Z) :
  (a - b) mod 2 ^ 32 = 0 -> to_int a = to_int b.
Proof.
  intros Hmod. apply Z.mod_divide in Hmod; [| lia].
  destruct Hmod as [k Hk].
  unfold to_int, wrap_signed.
  replace (a + 2 ^ (32 - 1)) with (b + 2 ^ (32 - 1) + k * 2 ^ 32) by lia.
  now rewrite Z_mod_plus_full.
Qed.

(** X8. The prong test compares the identifiers after their conversion to
    [int]: a track whose identifier differs from a prong identifier by a
    multiple of 2^32 is skipped as if it were that prong. *)
Theorem self_pairing_test_modulo {D : Type} `{DoubleOps D}
    (env : Creator.Env D) (candLc : CandLc.t D) (trackSoftPi : Track.t D)
    (prong : Z) (st : Creator.State D) :
  In prong (prongIds env candLc) ->
  (Track.globalIndex trackSoftPi - prong) mod 2 ^ 32 = 0 ->
  trackBody env candLc st trackSoftPi = st.
Proof.
  intros Hin Hmod. apply to_int_congruent in Hmod.
  assert (Hprong : isProngOf env candLc trackSoftPi = true).
  { unfold isProngOf, indexSoftPi, indexProng0, indexProng1, indexProng2.
    unfold prongIds in Hin.
    destruct Hin as [H0 | [H1 | [H2 | []]]]; subst prong;
      rewrite Hmod, Z.eqb_refl.
    - reflexivity.
    - apply orb_true_iff. left. apply orb_true_r.
    - apply orb_true_r. }
  unfold trackBody. rewrite Hprong.
  now destruct (negb (Creator.IsSelected env trackSoftPi)).
Qed.

(** A track with identifier 10 + 2^32 against the Λc with prong 10. *)
Lemma self_pairing_test_modulo_witness :
  trackBody Scenario.env Scenario.candA Creator.empty
            (Scenario.track (10 + 2 ^ 32) 1) = Creator.empty.
Proof.
  apply (self_pairing_test_modulo Scenario.env Scenario.candA
           (Scenario.track (10 + 2 ^ 32) 1) 10 Creator.empty).
  - left. reflexivity.
  - vm_compute. reflexivity.
Defined.

(** ** [process]: the rapidity cut *)

Lemma candBody_withYLc {D : Type} `{DoubleOps D} (env : Creator.Env D)
    (yLc' : CandLc.t D -> D) (tracks : list (Track.t D))
    (st : Creator.State D) (candLc : CandLc.t D) :
  dle dzero (Config.yCandLcMax (Creator.cfg env)) = false ->
  candBody (withYLc env yLc') tracks st candLc = candBody env tracks st candLc.
Proof.
  intros Hoff. unfold candBody, outsideRapidity.
  cbn [withYLc Creator.cfg]. rewrite Hoff. reflexivity.
Qed.

(** X9. With a maximum rapidity for which the test [yCandLcMax >= 0] fails,
    as for the default -1, no candidate is cut on rapidity: [process] ends
    in the same state whatever the rapidity of the candidates. *)
Theorem rapidity_cut_disabled {D : Type} `{DoubleOps D}
    (env : Creator.Env D) (yLc' : CandLc.t D -> D)
    (tracks : list (Track.t D)) (candidates : list (CandLc.t D)) :
  dle dzero (Config.yCandLcMax (Creator.cfg env)) = false ->
  forall st,
    process (withYLc env yLc') tracks candidates st =
    process env tracks candidates st.
Proof.
  intros Hoff. unfold process.
  induction candidates as [| c rest IH]; intros st; simpl.
  - reflexivity.
  - rewrite (candBody_withYLc env yLc' tracks st c Hoff). apply IH.
Qed.

(** The default configuration with candidates of rapidity 100. *)
Lemma rapidity_cut_disabled_witness :
  dle dzero (Config.yCandLcMax (Creator.cfg Scenario.env)) = false
  /\ process (withYLc Scenario.env (fun _ => 100%Q)) Scenario.tracksA
             [Scenario.candA] Creator.empty =
     process Scenario.env Scenario.tracksA [Scenario.candA] Creator.empty.
Proof.
  assert (Hoff : dle dzero (Config.yCandLcMax (Creator.cfg Scenario.env))
                 = false) by (vm_compute; reflexivity).
  split; [exact Hoff |].
  exact (rapidity_cut_disabled Scenario.env (fun _ => 100%Q)
           Scenario.tracksA [Scenario.candA] Hoff Creator.empty).
Defined.

(** ** [processMc]: the labels *)

Ltac mc_reduce :=
  cbn [Mc.indexRec Mc.sign Mc.flag Mc.origin Mc.chargeSigmac
       Mc.rowMCMatchScRec Mc.rowMCMatchScGen Mc.calls
       Mc.set_indexRec Mc.set_sign Mc.set_flag Mc.set_origin
       Mc.set_chargeSigmac Mc.called Mc.fillRec Mc.fillGen Mc.initial
       fst snd].

Ltac mc_split :=
  repeat match goal with
         | |- context [if ?b then _ else _] =>
           lazymatch b with
           | context [if _ then _ else _] => fail
           | _ => destruct b eqn:?; mc_reduce
           end
         end.

Lemma recLabel_unmatched_origin {D : Type} (env : Mc.Env D)
    (particlesMc : list McParticle.t) (candSigmac : CandSc.t D) :
  fst (recLabel env particlesMc candSigmac) = 0 ->
  snd (recLabel env particlesMc candSigmac) = 0.
Proof.
  unfold recLabel, recBody, matchRec, checkOrigin. mc_reduce.
  mc_split; intros Hflag; try reflexivity;
    match goal with
    | Hnz : negb (?x =? 0) = true |- _ =>
      apply negb_true_iff, Z.eqb_neq in Hnz; contradiction
    end.
Qed.

(** X11. In both tables written by [processMc], a label whose flag is 0 has
    origin 0: the origin is only looked up for a matched row. *)
Theorem unmatched_labels_have_no_origin {D : Type} (env : Mc.Env D)
    (particlesMc : list McParticle.t) (candidatesSigmac : list (CandSc.t D)) :
  Forall (fun label => fst label = 0 -> snd label = 0)
         (Mc.rowMCMatchScRec (processMc env particlesMc candidatesSigmac))
  /\ Forall (fun label => fst label = 0 -> snd label = 0)
            (Mc.rowMCMatchScGen (processMc env particlesMc candidatesSigmac)).
Proof.
  destruct (processMc_rows env particlesMc candidatesSigmac) as [Hrec Hgen].
  rewrite Hrec, Hgen. split; apply Forall_forall; intros label Hin;
    apply in_map_iff in Hin; destruct Hin as [x [Hlabel _]]; subst label.
  - apply recLabel_unmatched_origin.
  - rewrite genLabel_eq. cbn [fst snd]. intros Hflag. now rewrite Hflag.
Qed.

(** ** [processMc]: the reconstruction-level match *)

(** X12. When an iteration over a reconstructed candidate sets a nonzero
    flag, the Λc was matched exactly, one call to [getMatchedMCRec] was
    made, for the Σc0 when the stored charge is 0 and for the Σc++ when its
    magnitude is 2, on the three prongs followed by the soft pion with
    depth 3; [indexRec] holds the position it returned, which is above -1,
    and the origin is the one looked up for that position. *)
Theorem rec_origin_anchor {D : Type} (env : Mc.Env D)
    (particlesMc : list McParticle.t) (st : Mc.State)
    (candSigmac : CandSc.t D) :
  Mc.flag (recBody env particlesMc st candSigmac) <> 0 ->
  let st' := recBody env particlesMc st candSigmac in
  Z.abs (LambdacMc.flagMcMatchRec (Mc.prongLc_as env candSigmac))
    = Z.shiftl 1 (Mc.LcToPKPi env)
  /\ exists mother pattern,
       ((to_int8 (CandSc.charge candSigmac) = 0
         /\ mother = kSigmaC0
         /\ pattern = [kProton; - kKPlus; kPiPlus; - kPiPlus])
        \/ (Z.abs (to_int8 (CandSc.charge candSigmac)) = 2
            /\ mother = kSigmaCPlusPlus
            /\ pattern = [kProton; - kKPlus; kPiPlus; kPiPlus]))
       /\ Mc.indexRec st' =
          to_int (fst (RecoDecay.getMatchedMCRec (Mc.reco env) particlesMc
                         (arrayDaughtersOf env candSigmac) mother pattern
                         true 3))
       /\ -1 < Mc.indexRec st'
       /\ Mc.origin st' =
          to_int8 (RecoDecay.getCharmHadronOrigin (Mc.reco env) particlesMc
                     (Mc.indexRec st'))
       /\ Mc.calls st' =
          Mc.calls st
            ++ [CallGetMatchedMCRec (arrayDaughtersOf env candSigmac)
                                    mother pattern 3;
                CallGetCharmHadronOrigin (Mc.indexRec st')].
Proof.
  intros Hflag st'. subst st'. revert Hflag.
  unfold recBody, matchRec, checkOrigin, arrayDaughtersOf. mc_reduce.
  destruct (negb (Z.abs (LambdacMc.flagMcMatchRec (Mc.prongLc_as env candSigmac))
                  =? Z.shiftl 1 (Mc.LcToPKPi env))) eqn:Hexact; mc_reduce.
  - intros Hflag. exfalso. apply Hflag. reflexivity.
  - apply negb_false_iff, Z.eqb_eq in Hexact.
    destruct (to_int8 (CandSc.charge candSigmac) =? 0) eqn:Hzero; mc_reduce;
      [| destruct (Z.abs (to_int8 (CandSc.charge candSigmac)) =? 2) eqn:Htwo;
         mc_reduce].
    + apply Z.eqb_eq in Hzero.
      match goal with
      | |- context [if -1 <? ?i then _ else _] =>
        destruct (-1 <? i) eqn:Hidx; mc_reduce
      end; [| intros Hflag; exfalso; apply Hflag; reflexivity].
      match goal with
      | |- context [if negb (?f =? 0) then _ else _] =>
        destruct (negb (f =? 0)) eqn:Hnz; mc_reduce
      end.
      * intros _. split; [exact Hexact |].
        exists kSigmaC0, [kProton; - kKPlus; kPiPlus; - kPiPlus].
        apply Z.ltb_lt in Hidx.
        split; [left; repeat split; exact Hzero |].
        repeat split; try reflexivity; try exact Hidx.
        now rewrite <- app_assoc.
      * apply negb_false_iff, Z.eqb_eq in Hnz. intros Hflag. contradiction.
    + apply Z.eqb_eq in Htwo.
      match goal with
      | |- context [if -1 <? ?i then _ else _] =>
        destruct (-1 <? i) eqn:Hidx; mc_reduce
      end; [| intros Hflag; exfalso; apply Hflag; reflexivity].
      match goal with
      | |- context [if negb (?f =? 0) then _ else _] =>
        destruct (negb (f =? 0)) eqn:Hnz; mc_reduce
      end.
      * intros _. split; [exact Hexact |].
        exists kSigmaCPlusPlus, [kProton; - kKPlus; kPiPlus; kPiPlus].
        apply Z.ltb_lt in Hidx.
        split; [right; repeat split; exact Htwo |].
        repeat split; try reflexivity; try exact Hidx.
        now rewrite <- app_assoc.
      * apply negb_false_iff, Z.eqb_eq in Hnz. intros Hflag. contradiction.
    + intros Hflag. exfalso. apply Hflag. reflexivity.
Qed.

(** The prompt Σc++ of scenario A on the tree of scenario D. *)
Lemma rec_origin_anchor_witness :
  Mc.flag (recBody (Scenario.envMc 2) Scenario.treeD Mc.initial
                   Scenario.candScPP) <> 0
  /\ Z.abs (LambdacMc.flagMcMatchRec
              (Mc.prongLc_as (Scenario.envMc 2) Scenario.candScPP))
     = Z.shiftl 1 (Mc.LcToPKPi (Scenario.envMc 2)).
Proof.
  assert (Hflag : Mc.flag (recBody (Scenario.envMc 2) Scenario.treeD
                             Mc.initial Scenario.candScPP) <> 0)
    by (vm_compute; discriminate).
  split; [exact Hflag |].
  exact (proj1 (rec_origin_anchor (Scenario.envMc 2) Scenario.treeD
                  Mc.initial Scenario.candScPP Hflag)).
Defined.

Lemma to_int_small (z : Z) :
  - 2 ^ 31 <= z < 2 ^ 31 -> to_int z = z.
Proof.
  intros Hrange. unfold to_int, wrap_signed.
  change (32 - 1) with 31. rewrite Z.mod_small; lia.
Qed.

Lemma to_int8_small (z : Z) :
  - 128 <= z < 128 -> to_int8 z = z.
Proof.
  intros Hrange. unfold to_int8, wrap_signed.
  change (2 ^ (8 - 1)) with 128. change (2 ^ 8) with 256.
  rewrite Z.mod_small; lia.
Qed.

Lemma signed_flag_value (sgn decayType : Z) :
  sgn = 1 \/ sgn = -1 -> 0 <= decayType <= 6 ->
  to_int8 (to_int8 sgn * Z.shiftl 1 decayType) = sgn * 2 ^ decayType
  /\ sgn * 2 ^ decayType <> 0.
Proof.
  intros Hsgn Hrange.
  assert (Hcases : decayType = 0 \/ decayType = 1 \/ decayType = 2
                   \/ decayType = 3 \/ decayType = 4 \/ decayType = 5
                   \/ decayType = 6) by lia.
  destruct Hsgn as [Hs | Hs]; subst sgn;
    destruct Hcases as [Hk | [Hk | [Hk | [Hk | [Hk | [Hk | Hk]]]]]];
    subst decayType; vm_compute; split; (reflexivity || discriminate).
Qed.

(** X13. A match is reported as it is returned: when the Λc is matched
    exactly, the stored charge selects a channel, [getMatchedMCRec]
    returns a position of the table with sign +1 or -1, and the decay-type
    constant is at most 6, the label is the sign times 2 to the decay type,
    with the origin of the returned position. *)
Theorem rec_match_reported {D : Type} (env : Mc.Env D)
    (particlesMc : list McParticle.t) (st : Mc.State)
    (candSigmac : CandSc.t D)
    (mother : Z) (pattern : list Z) (decayType idx sgn : Z) :
  Z.abs (LambdacMc.flagMcMatchRec (Mc.prongLc_as env candSigmac))
    = Z.shiftl 1 (Mc.LcToPKPi env) ->
  (to_int8 (CandSc.charge candSigmac) = 0
   /\ mother = kSigmaC0
   /\ pattern = [kProton; - kKPlus; kPiPlus; - kPiPlus]
   /\ decayType = Mc.Sc0ToPKPiPi env)
  \/ (Z.abs (to_int8 (CandSc.charge candSigmac)) = 2
      /\ mother = kSigmaCPlusPlus
      /\ pattern = [kProton; - kKPlus; kPiPlus; kPiPlus]
      /\ decayType = Mc.ScplusplusToPKPiPi env) ->
  RecoDecay.getMatchedMCRec (Mc.reco env) particlesMc
    (arrayDaughtersOf env candSigmac) mother pattern true 3 = (idx, sgn) ->
  0 <= idx < 2 ^ 31 ->
  sgn = 1 \/ sgn = -1 ->
  0 <= decayType <= 6 ->
  Mc.rowMCMatchScRec (recBody env particlesMc st candSigmac) =
  Mc.rowMCMatchScRec st
    ++ [(sgn * 2 ^ decayType,
         to_int8 (RecoDecay.getCharmHadronOrigin (Mc.reco env) particlesMc
                    idx))].
Proof.
  intros Hexact Hchannel Hmatch Hidx Hsgn Hrange.
  destruct (signed_flag_value sgn decayType Hsgn Hrange) as [Hvalue Hnz].
  assert (Hexact' : negb (Z.abs (LambdacMc.flagMcMatchRec
                                   (Mc.prongLc_as env candSigmac))
                          =? Z.shiftl 1 (Mc.LcToPKPi env)) = false)
    by (apply negb_false_iff, Z.eqb_eq; exact Hexact).
  assert (Hpos : (-1 <? to_int idx) = true)
    by (rewrite to_int_small by lia; apply Z.ltb_lt; lia).
  assert (Hnz' : negb (sgn * 2 ^ decayType =? 0) = true)
    by (apply negb_true_iff, Z.eqb_neq; exact Hnz).
  unfold arrayDaughtersOf in Hmatch.
  unfold recBody, matchRec, checkOrigin. rewrite Hexact'. mc_reduce.
  destruct Hchannel as [(Hzero & Hm & Hp & Hk) | (Htwo & Hm & Hp & Hk)];
    subst mother pattern.
  - rewrite Hzero. cbn [Z.eqb]. rewrite Hmatch. mc_reduce.
    rewrite Hpos. mc_reduce. rewrite <- Hk, Hvalue, Hnz'. mc_reduce.
    now rewrite to_int_small by lia.
  - assert (Hnot0 : (to_int8 (CandSc.charge candSigmac) =? 0) = false)
      by (apply Z.eqb_neq; lia).
    rewrite Hnot0, Htwo. cbn [Z.eqb Pos.eqb]. rewrite Hmatch. mc_reduce.
    rewrite Hpos. mc_reduce. rewrite <- Hk, Hvalue, Hnz'. mc_reduce.
    now rewrite to_int_small by lia.
Qed.

(** The Σc++ of scenario A: position 0, sign +1, decay type 1. *)
Lemma rec_match_reported_witness :
  Mc.rowMCMatchScRec
    (recBody (Scenario.envMc 2) Scenario.treeD Mc.initial Scenario.candScPP)
  = [(2, 1)].
Proof.
  assert (Hexact : Z.abs (LambdacMc.flagMcMatchRec
                            (Mc.prongLc_as (Scenario.envMc 2)
                                           Scenario.candScPP))
                   = Z.shiftl 1 (Mc.LcToPKPi (Scenario.envMc 2)))
    by (vm_compute; reflexivity).
  assert (Htwo : Z.abs (to_int8 (CandSc.charge Scenario.candScPP)) = 2)
    by (vm_compute; reflexivity).
  assert (Hmatch : RecoDecay.getMatchedMCRec (Mc.reco (Scenario.envMc 2))
                     Scenario.treeD
                     (arrayDaughtersOf (Scenario.envMc 2) Scenario.candScPP)
                     kSigmaCPlusPlus [kProton; - kKPlus; kPiPlus; kPiPlus]
                     true 3 = (0, 1))
    by (vm_compute; reflexivity).
  exact (rec_match_reported (Scenario.envMc 2) Scenario.treeD Mc.initial
           Scenario.candScPP kSigmaCPlusPlus
           [kProton; - kKPlus; kPiPlus; kPiPlus] 1 0 1
           Hexact
           (or_intror (conj Htwo (conj eq_refl (conj eq_refl eq_refl))))
           Hmatch
           (conj (Z.le_refl 0) eq_refl)
           (or_introl eq_refl)
           (conj (Z.lt_le_incl 0 1 eq_refl) (Z.lt_le_incl 1 6 eq_refl))).
Defined.

(** ** [processMc]: the variable [indexRec] between the two loops *)

Lemma recBody_indexRec_initial {D : Type} (env : Mc.Env D)
    (particlesMc : list McParticle.t) (st : Mc.State)
    (candSigmac : CandSc.t D) :
  Mc.indexRec (recBody env particlesMc st candSigmac) =
  Mc.indexRec (recBody env particlesMc Mc.initial candSigmac).
Proof.
  unfold recBody, matchRec, checkOrigin. mc_reduce.
  mc_split; reflexivity.
Qed.

(** X14. The generation loop never assigns [indexRec]: during and after it the
    variable holds what the loop over reconstructed candidates left, which
    is -1 when there is no candidate and otherwise is decided by the last
    candidate alone. *)
Theorem indexRec_between_loops {D : Type} (env : Mc.Env D)
    (particlesMc : list McParticle.t) :
  (forall candidatesSigmac,
      Mc.indexRec (processMc env particlesMc candidatesSigmac) =
      Mc.indexRec (recLoop env particlesMc candidatesSigmac Mc.initial))
  /\ Mc.indexRec (recLoop env particlesMc [] Mc.initial) = -1
  /\ (forall candidatesSigmac candSigmac,
         Mc.indexRec (recLoop env particlesMc
                              (candidatesSigmac ++ [candSigmac]) Mc.initial) =
         Mc.indexRec (recBody env particlesMc Mc.initial candSigmac)).
Proof.
  split; [| split].
  - intros candidatesSigmac. unfold processMc, genLoop.
    destruct (genLoop_rows_from env particlesMc (enumerate particlesMc)
                (recLoop env particlesMc candidatesSigmac Mc.initial))
      as (_ & _ & Hidx).
    exact Hidx.
  - reflexivity.
  - intros candidatesSigmac candSigmac. unfold recLoop.
    rewrite fold_left_app. cbn [fold_left].
    apply recBody_indexRec_initial.
Qed.

(** ** [process]: one row per pair *)

Lemma NoDup_map_filter {A B : Type} (f : A -> B) (q : A -> bool)
    (l : list A) :
  NoDup (map f l) -> NoDup (map f (filter q l)).
Proof.
  induction l as [| a rest IH]; simpl; intros Hnodup.
  - constructor.
  - inversion Hnodup as [| x xs Hnotin Hrest]; subst.
    destruct (q a); simpl; [| now apply IH].
    constructor; [| now apply IH].
    intros Hin. apply Hnotin.
    apply in_map_iff in Hin. destruct Hin as [y [Hy Hiny]].
    apply filter_In in Hiny. apply in_map_iff. exists y. tauto.
Qed.

Lemma NoDup_map_pair {A : Type} (f : A -> Z) (k : Z) (l : list A) :
  NoDup (map f l) -> NoDup (map (fun a => (k, f a)) l).
Proof.
  induction l as [| a rest IH]; simpl; intros Hnodup.
  - constructor.
  - inversion Hnodup as [| x xs Hnotin Hrest]; subst.
    constructor; [| now apply IH].
    intros Hin. apply Hnotin.
    apply in_map_iff in Hin. destruct Hin as [y [Hy Hiny]].
    injection Hy as Hfy. rewrite <- Hfy. now apply in_map.
Qed.

(** X10. When the candidates of the event have distinct global indices and so
    have its tracks, no two rows added by [process] carry the same pair of
    candidate index and soft-pion index: a pair gives at most one row. *)
Theorem emitted_rows_distinct {D : Type} `{DoubleOps D} (env : Creator.Env D)
    (tracks : list (Track.t D)) (candidates : list (CandLc.t D))
    (st : Creator.State D) :
  NoDup (map CandLc.globalIndex candidates) ->
  NoDup (map Track.globalIndex tracks) ->
  exists emitted,
    Creator.rowScCandidates (process env tracks candidates st) =
    Creator.rowScCandidates st ++ emitted
    /\ NoDup (map (fun row => (CandSc.prong0Id row, CandSc.prong1Id row))
                  emitted).
Proof.
  intros Hcands Htracks.
  exists (map (pairRow env) (acceptedPairs env tracks candidates)).
  split; [apply process_rows |].
  rewrite map_map. unfold pairRow, rowOf.
  cbn [CandSc.prong0Id CandSc.prong1Id]. unfold acceptedPairs.
  induction candidates as [| c rest IH]; simpl.
  - constructor.
  - inversion Hcands as [| x xs Hnotin Hrest]; subst.
    destruct (qualifyingLc env c); simpl; [| now apply IH].
    rewrite map_app, map_map. cbn [fst snd].
    apply NoDup_app.
    + apply (NoDup_map_pair Track.globalIndex (CandLc.globalIndex c)).
      now apply NoDup_map_filter.
    + now apply IH.
    + intros key Hleft Hright. apply Hnotin.
      apply in_map_iff in Hleft. destruct Hleft as [t [Hkey _]].
      apply in_map_iff in Hright. destruct Hright as [[c' t'] [Hkey' Hin]].
      cbn [fst snd] in Hkey'.
      apply in_flat_map in Hin. destruct Hin as [c'' [Hc'' Hpair]].
      apply in_map_iff in Hpair. destruct Hpair as [t'' [Heq _]].
      inversion Heq; subst c'' t''.
      apply filter_In in Hc''. destruct Hc'' as [Hc'' _].
      rewrite <- Hkey in Hkey'. injection Hkey' as Hidx _.
      rewrite <- Hidx. now apply in_map.
Qed.

(** Scenario A: the indices of the candidate and of the two tracks are
    distinct, and so are the two rows. *)
Lemma emitted_rows_distinct_witness :
  exists emitted,
    Creator.rowScCandidates
      (process Scenario.env Scenario.tracksA [Scenario.candA] Creator.empty) =
    Creator.rowScCandidates Creator.empty ++ emitted
    /\ NoDup (map (fun row => (CandSc.prong0Id row, CandSc.prong1Id row))
                  emitted).
Proof.
  apply (emitted_rows_distinct Scenario.env Scenario.tracksA
           [Scenario.candA] Creator.empty).
  - repeat constructor. intros [].
  - repeat constructor; simpl; intros Hin;
      repeat (destruct Hin as [Hin | Hin]; [discriminate |]); exact Hin.
Defined.
